(** * short-url: the identifier generator, the URL entity, the in-memory
    store and the lifecycle service, embedded from the Go sources

    - [internal/shorturl/infra/base62_kgs.go]       (modules [Int64], [Base62], [KGS])
    - [internal/shorturl/domain/shorturl.go]        (module [Domain])
    - [internal/shorturl/infra/memory_repository.go] (module [Repo])
    - [internal/shorturl/app/service.go]            (module [App])
    - [internal/shorturl/interfaces/http/handler.go] and the catch-all
      route of [main]                               (module [Http])

    Go's [int64] is a [Z] with the wrap-around written out, Go strings are
    [string]s of bytes, the store's [map[string]*ShortURL] is a [gmap], and
    the clock and the randomness source are oracles read through a cursor. *)

From Stdlib Require Import ZArith Lia List String Ascii Bool.
From Equations Require Import Equations.
From stdpp Require Import gmap strings.

Local Open Scope Z_scope.

(** ** Results of Go calls

    A Go function returning [(T, error)] either returns a value, returns an
    error, or does not return at all because the runtime panics (nil
    dereference, index out of range, negative [make] length). *)

Inductive error : Type :=
| errorsNew (msg : string)
| InvalidCharacter (char : ascii)
| Errorf_w (context : string) (cause : error).

Inductive outcome (A : Type) : Type :=
| Ok (a : A)
| Err (e : error)
| Panic.
Arguments Ok {A} a.
Arguments Err {A} e.
Arguments Panic {A}.

Definition is_Err {A} (o : outcome A) : bool :=
  match o with Err _ => true | _ => false end.

(** ** Signed 64-bit integers *)

Module Int64.

Definition min_int : Z := - 2 ^ 63.
Definition max_int : Z := 2 ^ 63 - 1.

Definition in_range (z : Z) : Prop := min_int <= z <= max_int.

(** Two's-complement reduction of a mathematical integer to [int64]. *)
Definition wrap (z : Z) : Z := (z + 2 ^ 63) mod 2 ^ 64 - 2 ^ 63.

Definition add (a b : Z) : Z := wrap (a + b).
Definition mul (a b : Z) : Z := wrap (a * b).
Definition neg (a : Z) : Z := wrap (- a).
(** [a << k] drops the bits shifted out at the top. *)
Definition shl (a k : Z) : Z := wrap (Z.shiftl a k).
(** [a >> k] on a signed operand is the arithmetic (sign-extending) shift. *)
Definition shr (a k : Z) : Z := Z.shiftr a k.

End Int64.

(** ** Base62 codec and padding ([base62_kgs.go]) *)

Module Base62.

Definition base62Chars : string :=
  "0123456789abcdefghijklmnopqrstuvwxyzABCDEFGHIJKLMNOPQRSTUVWXYZ".

(** [base62Chars[i]]; the index is [num % 62] with [num > 0] at its only
    use, so the out-of-range default is never taken there
    (lemma [base62_at_get]). *)
Definition base62_at (i : Z) : ascii :=
  match String.get (Z.to_nat i) base62Chars with
  | Some c => c
  | None => "000"%char
  end.

(** The character class [[0-9a-zA-Z]]. *)
Definition isBase62Char (c : ascii) : bool :=
  let n := Z.of_N (N_of_ascii c) in
  ((48 <=? n) && (n <=? 57)) || ((97 <=? n) && (n <=? 122))
  || ((65 <=? n) && (n <=? 90)).

Fixpoint isValidBase62 (s : string) : bool :=
  match s with
  | EmptyString => true
  | String c s' => isBase62Char c && isValidBase62 s'
  end.

(** Termination measure of the encoding loop: the bit length of [num]. *)
Definition digits_bound (num : Z) : nat := Z.to_nat (Z.log2_up (num + 1)).

Lemma digits_bound_quot num :
  0 < num -> (digits_bound (Z.quot num 62) < digits_bound num)%nat.
Proof.
  intros Hpos. unfold digits_bound.
  assert (Hq : 0 <= Z.quot num 62) by (apply Z.quot_pos; lia).
  assert (Hle : (Z.quot num 62 + 1) * 2 <= num + 1).
  { rewrite Z.quot_div_nonneg by lia.
    pose proof (Z.mul_div_le num 62 ltac:(lia)). lia. }
  pose proof (Z.log2_up_mul_pow2 (Z.quot num 62 + 1) 1 ltac:(lia) ltac:(lia)) as E.
  change (2 ^ 1) with 2 in E.
  pose proof (Z.log2_up_le_mono _ _ Hle).
  pose proof (Z.log2_up_nonneg (Z.quot num 62 + 1)). lia.
Qed.

(** The loop [for num > 0 { result = string(base62Chars[num%62]) + result;
    num /= 62 }]. Go's [/] and [%] truncate toward zero. *)
Equations encode_loop (num : Z) (result : string) : string
  by wf (digits_bound num) lt :=
  encode_loop num result with Z_lt_dec 0 num => {
    | left _ := encode_loop (Z.quot num 62)
                  (String (base62_at (Z.rem num 62)) result);
    | right _ := result }.
Next Obligation. intros num Hpos _ _. apply digits_bound_quot, Hpos. Qed.

Definition encodeBase62 (num : Z) : string :=
  if num =? 0 then "0"%string else encode_loop num ""%string.

(** [for i := 0; i < padding; i++ { str = "0" + str }] *)
Fixpoint pad_loop (padding : nat) (str : string) : string :=
  match padding with
  | O => str
  | S p => pad_loop p (String "0"%char str)
  end.

Definition padToLength (str : string) (length : Z) : string :=
  let len := Z.of_nat (String.length str) in
  if len >=? length then str
  else pad_loop (Z.to_nat (length - len)) str.

(** The [switch] of [DecodeBase62]: [None] is its [default] branch. *)
Definition digit_of (char : ascii) : option Z :=
  let c := Z.of_N (N_of_ascii char) in
  if (48 <=? c) && (c <=? 57) then Some (c - 48)
  else if (97 <=? c) && (c <=? 122) then Some (c - 97 + 10)
  else if (65 <=? c) && (c <=? 90) then Some (c - 65 + 36)
  else None.

(** [for i := len(encoded) - 1; i >= 0; i--]: [n] is [i + 1]. *)
Fixpoint decode_loop (encoded : string) (n : nat) (result power : Z)
  : outcome Z :=
  match n with
  | O => Ok result
  | S i =>
      match String.get i encoded with
      | None => Panic
      | Some char =>
          match digit_of char with
          | None => Err (InvalidCharacter char)
          | Some digit =>
              decode_loop encoded i
                (Int64.add result (Int64.mul digit power))
                (Int64.mul power 62)
          end
      end
  end.

Definition DecodeBase62 (encoded : string) : outcome Z :=
  decode_loop encoded (String.length encoded) 0 1.

End Base62.

(** ** Go [strings] functions used by the service *)

Module Strings.

(** [strings.HasSuffix(s, suffix)] *)
Definition HasSuffix (s suffix : string) : bool :=
  let n := String.length s in
  let k := String.length suffix in
  (k <=? n)%nat && String.eqb (String.substring (n - k) k s) suffix.

(** [strings.TrimSuffix(s, suffix)]: at most one copy of [suffix] is removed. *)
Definition TrimSuffix (s suffix : string) : string :=
  if HasSuffix s suffix
  then String.substring 0 (String.length s - String.length suffix) s
  else s.

(** [strings.Split(s, sep)] for a one-byte separator: the substrings between
    the separators, one more than there are separators. *)
Fixpoint Split (s : string) (sep : ascii) : list string :=
  match s with
  | EmptyString => [EmptyString]
  | String c s' =>
      if Ascii.eqb c sep then EmptyString :: Split s' sep
      else match Split s' sep with
           | [] => [String c EmptyString]
           | part :: parts => String c part :: parts
           end
  end.

(** [strings.Contains(s, string(c))] *)
Fixpoint ContainsByte (s : string) (c : ascii) : bool :=
  match s with
  | EmptyString => false
  | String c' s' => Ascii.eqb c' c || ContainsByte s' c
  end.

End Strings.

(** ** Data model ([domain/shorturl.go], [app/dto.go]) *)

(** [map[string]interface{}]: carried through unchanged, never inspected. *)
Definition Metadata : Type := list (string * string).

(** A [time.Time], as nanoseconds since the Unix epoch. *)
Definition Time : Type := Z.

Record ShortURL : Type := mkShortURL {
  id : string;
  longURL : string;
  shortURL : string;
  createdAt : Time;
  expiry : option Time;
  isActive : bool;
  userMetadata : Metadata
}.

Record AnalyticsEvent : Type := mkAnalyticsEvent {
  EventType : string;
  ev_ShortURL : string;
  ev_LongURL : string;
  ev_UserMetadata : Metadata;
  Timestamp : Time
}.

Record CreateShortURLRequest : Type := mkCreateShortURLRequest {
  LongURL : string;
  CustomURL : string;
  Expiry : option Time;
  UserMetadata : Metadata
}.

Record CreateShortURLResponse : Type := mkCreateShortURLResponse {
  resp_ShortURL : string
}.

Record GetLongURLRequest : Type := mkGetLongURLRequest {
  req_ShortURL : string;
  req_UserMetadata : Metadata
}.

(** ** The process state and the monad of Go calls

    [clock k] is the [k]-th reading of [time.Now()] and [randInt k max] the
    result of the [k]-th call [rand.Int(rand.Reader, max)]: [None] when the
    reader fails, in which case Go returns [(nil, err)]. The other fields
    are the generator ([counter], [buffer]), the repository ([data]), the
    analytics sink ([events], the log it prints to) and the service's
    configured [baseURL]. *)

Record World : Type := mkWorld {
  clock : nat -> Time;
  ticks : nat;
  randInt : nat -> Z -> option Z;
  draws : nat;
  counter : Z;
  buffer : list string;
  data : gmap string ShortURL;
  events : list AnalyticsEvent;
  baseURL : string
}.

Definition set_ticks (n : nat) (w : World) : World :=
  mkWorld (clock w) n (randInt w) (draws w) (counter w) (buffer w)
          (data w) (events w) (baseURL w).
Definition set_draws (n : nat) (w : World) : World :=
  mkWorld (clock w) (ticks w) (randInt w) n (counter w) (buffer w)
          (data w) (events w) (baseURL w).
Definition set_counter (c : Z) (w : World) : World :=
  mkWorld (clock w) (ticks w) (randInt w) (draws w) c (buffer w)
          (data w) (events w) (baseURL w).
Definition set_buffer (b : list string) (w : World) : World :=
  mkWorld (clock w) (ticks w) (randInt w) (draws w) (counter w) b
          (data w) (events w) (baseURL w).
Definition set_data (d : gmap string ShortURL) (w : World) : World :=
  mkWorld (clock w) (ticks w) (randInt w) (draws w) (counter w) (buffer w)
          d (events w) (baseURL w).
Definition set_events (e : list AnalyticsEvent) (w : World) : World :=
  mkWorld (clock w) (ticks w) (randInt w) (draws w) (counter w) (buffer w)
          (data w) e (baseURL w).

(** A call runs in a world and leaves a world behind, also when it returns
    an error or panics (what it had written by then stays written). *)
Definition M (A : Type) : Type := World -> outcome A * World.

Definition ret {A} (a : A) : M A := fun w => (Ok a, w).
Definition fail {A} (e : error) : M A := fun w => (Err e, w).
Definition panic {A} : M A := fun w => (Panic, w).
Definition bind {A B} (m : M A) (k : A -> M B) : M B :=
  fun w =>
    match m w with
    | (Ok a, w') => k a w'
    | (Err e, w') => (Err e, w')
    | (Panic, w') => (Panic, w')
    end.
Definition gets {A} (f : World -> A) : M A := fun w => (Ok (f w), w).
Definition modify (f : World -> World) : M unit := fun w => (Ok tt, f w).

Notation "x <- m ;; k" := (bind m (fun x => k))
  (at level 90, m at level 80, right associativity).
Notation "m ;;; k" := (bind m (fun _ => k))
  (at level 90, right associativity).

(** [time.Now()] *)
Definition time_Now : M Time :=
  fun w => (Ok (clock w (ticks w)), set_ticks (S (ticks w)) w).

(** [t.Unix()]: whole seconds. *)
Definition Unix (t : Time) : Z := t / 1000000000.
(** [t.UnixNano()] *)
Definition UnixNano (t : Time) : Z := t.

(** [n, _ := rand.Int(rand.Reader, big.NewInt(max))]: the error is dropped
    by both callers, [n] is [nil] when the reader failed. *)
Definition rand_Int (max : Z) : M (option Z) :=
  fun w => (Ok (randInt w (draws w) max), set_draws (S (draws w)) w).

(** [n.Int64()]: a nil [*big.Int] receiver is dereferenced. *)
Definition big_Int64 (n : option Z) : M Z :=
  match n with
  | Some v => ret v
  | None => panic
  end.

(** ** The URL entity ([domain/shorturl.go]) *)

Module Domain.

Definition ErrLongURLEmpty : error := errorsNew "long URL cannot be empty".
Definition ErrShortURLEmpty : error := errorsNew "short URL cannot be empty".
Definition ErrCustomURLEmpty : error := errorsNew "custom URL cannot be empty".

Definition NewShortURL (id longURL shortURL : string) (expiry : option Time)
    (userMetadata : Metadata) : M ShortURL :=
  if String.eqb longURL "" then fail ErrLongURLEmpty
  else if String.eqb shortURL "" then fail ErrShortURLEmpty
  else
    now <- time_Now ;;
    ret (mkShortURL id longURL shortURL now expiry true userMetadata).

Definition NewCustomShortURL (customURL longURL : string)
    (expiry : option Time) (userMetadata : Metadata) : M ShortURL :=
  if String.eqb longURL "" then fail ErrLongURLEmpty
  else if String.eqb customURL "" then fail ErrCustomURLEmpty
  else
    now <- time_Now ;;
    ret (mkShortURL customURL longURL customURL now expiry true userMetadata).

Definition ReconstructShortURL (id longURL shortURL : string)
    (createdAt : Time) (expiry : option Time) (isActive : bool)
    (userMetadata : Metadata) : ShortURL :=
  mkShortURL id longURL shortURL createdAt expiry isActive userMetadata.

(** [time.Now().After] of the expiry: strictly after. *)
Definition IsExpired (s : ShortURL) : M bool :=
  match expiry s with
  | None => ret false
  | Some e => now <- time_Now ;; ret (e <? now)
  end.

Definition Deactivate (s : ShortURL) : ShortURL :=
  mkShortURL (id s) (longURL s) (shortURL s) (createdAt s) (expiry s) false
             (userMetadata s).

End Domain.

(** ** The identifier generator ([infra/base62_kgs.go]) *)

Module KGS.

(** One pass through the body of [generateNonSequentialValue]. *)
Definition scramble (counter now r : Z) : Z :=
  let timeSeed := Z.land (UnixNano now) 65535 in
  let scrambled := Z.lxor counter timeSeed in
  let scrambled := Int64.add scrambled r in
  let scrambled :=
    Z.lor (Int64.shl scrambled 13) (Int64.shr scrambled (64 - 13)) in
  if scrambled <? 0 then Int64.neg scrambled else scrambled.

Definition generateNonSequentialValue : M Z :=
  now <- time_Now ;;
  k_counter <- gets counter ;;
  randomComponent <- rand_Int 1000 ;;
  r <- big_Int64 randomComponent ;;
  ret (scramble k_counter now r).

(** The body of the loop of [generateMultipleIDsInternal], [n] more times;
    [ids] are the slots filled so far. *)
Fixpoint generate_loop (n : nat) (ids : list string) : M (list string) :=
  match n with
  | O => ret ids
  | S n' =>
      uniqueValue <- generateNonSequentialValue ;;
      let id := Base62.encodeBase62 uniqueValue in
      let ids := ids ++ [Base62.padToLength id 7] in
      modify (fun w => set_counter (Int64.add (counter w) 1) w) ;;;
      generate_loop n' ids
  end.

(** [make([]string, count)] panics on a negative [count]. *)
Definition generateMultipleIDsInternal (count : Z) : M (list string) :=
  if count <? 0 then panic
  else generate_loop (Z.to_nat count) [].

Definition GenerateUniqueID : M string :=
  buf <- gets buffer ;;
  match buf with
  | id :: rest => modify (set_buffer rest) ;;; ret id
  | [] =>
      ids <- generateMultipleIDsInternal 1 ;;
      match ids with
      | id :: _ => ret id
      | [] => panic
      end
  end.

Definition GetMultipleIDs (count : Z) : M (list string) :=
  generateMultipleIDsInternal count.

(** [fmt.Errorf("failed to refill buffer: %w", err)] around an action. *)
Definition wrap_err {A} (context : string) (m : M A) : M A :=
  fun w =>
    match m w with
    | (Err e, w') => (Err (Errorf_w context e), w')
    | r => r
    end.

Definition RefillBuffer : M unit :=
  buf <- gets buffer ;;
  if (Z.of_nat (List.length buf) <? 100) then
    newIDs <- wrap_err "failed to refill buffer"
                (generateMultipleIDsInternal 1000) ;;
    modify (fun w => set_buffer (buffer w ++ newIDs) w)
  else ret tt.

(** The constructor: it (re)initialises the generator of the world. *)
Definition NewBase62KeyGenerationService : M unit :=
  randomStart <- rand_Int 1000000 ;;
  r <- big_Int64 randomStart ;;
  now <- time_Now ;;
  modify (fun w => set_buffer [] (set_counter (Int64.add r (Unix now)) w)).

End KGS.

(** ** The in-memory repository ([infra/memory_repository.go]) *)

Module Repo.

Definition ErrNotFound : error := errorsNew "short URL not found".

Definition Save (s : ShortURL) : M unit :=
  modify (fun w => set_data (<[id s := s]> (data w)) w).

(** The result is the entity, or [None] for the nil pointer. *)
Definition FindByID (k : string) : M (option ShortURL) :=
  gets (fun w => data w !! k).

Definition Delete (k : string) : M unit :=
  found <- gets (fun w => data w !! k) ;;
  match found with
  | None => fail ErrNotFound
  | Some _ => modify (fun w => set_data (delete k (data w)) w)
  end.

End Repo.

(** ** The analytics sink ([infra/mock_analytics.go]) *)

Module Analytics.

(** [SendEvent] logs the event and returns nil. *)
Definition SendEvent (event : AnalyticsEvent) : M unit :=
  modify (fun w => set_events (events w ++ [event]) w).

End Analytics.

(** ** The lifecycle service ([app/service.go]) *)

Module App.

Definition ErrLongURLRequired : error := errorsNew "longUrl is required".
Definition ErrCustomURLExists : error := errorsNew "custom URL already exists".
Definition ErrShortURLRequired : error := errorsNew "shortUrl is required".
Definition ErrNotFound : error := errorsNew "short URL not found".
Definition ErrNotActiveOrExpired : error :=
  errorsNew "short URL is not active or expired".
Definition ErrIDRequired : error := errorsNew "ID is required".

(** [fmt.Sprintf("%s/%s", strings.TrimSuffix(s.baseURL, "/"), id)] *)
Definition buildShortURL (id : string) : M string :=
  base <- gets baseURL ;;
  ret (Strings.TrimSuffix base "/" ++ "/" ++ id)%string.

Definition extractIDFromShortURL (url : string) : string :=
  let parts := Strings.Split url "/" in
  match last parts with
  | Some part => part
  | None => url
  end.

(** [existing, _ := s.repo.FindByID(...)] drops an error that the in-memory
    repository never returns; the results of [SendEvent] are dropped too,
    and the mock sink always returns nil. *)
Definition CreateShortURL (req : CreateShortURLRequest)
  : M CreateShortURLResponse :=
  if String.eqb (LongURL req) "" then fail ErrLongURLRequired
  else
    entity <-
      (if negb (String.eqb (CustomURL req) "") then
         existing <- Repo.FindByID (CustomURL req) ;;
         match existing with
         | Some _ => fail ErrCustomURLExists
         | None =>
             Domain.NewCustomShortURL (CustomURL req) (LongURL req)
               (Expiry req) (UserMetadata req)
         end
       else
         id <- KGS.wrap_err "failed to generate unique ID"
                 KGS.GenerateUniqueID ;;
         shortURLStr <- buildShortURL id ;;
         Domain.NewShortURL id (LongURL req) shortURLStr (Expiry req)
           (UserMetadata req)) ;;
    Repo.Save entity ;;;
    now <- time_Now ;;
    Analytics.SendEvent
      (mkAnalyticsEvent "url_created" (shortURL entity)
         (longURL entity) (userMetadata entity) now) ;;;
    ret (mkCreateShortURLResponse (shortURL entity)).

Definition GetLongURL (req : GetLongURLRequest) : M string :=
  if String.eqb (req_ShortURL req) "" then fail ErrShortURLRequired
  else
    let id := extractIDFromShortURL (req_ShortURL req) in
    found <- Repo.FindByID id ;;
    match found with
    | None => fail ErrNotFound
    | Some entity =>
        if negb (isActive entity) then fail ErrNotActiveOrExpired
        else
          expired <- Domain.IsExpired entity ;;
          if expired : bool then fail ErrNotActiveOrExpired
          else
            now <- time_Now ;;
            Analytics.SendEvent
              (mkAnalyticsEvent "url_accessed" (shortURL entity)
                 (longURL entity) (req_UserMetadata req) now) ;;;
            ret (longURL entity)
    end.

(** The repository holds pointers: [Deactivate] writes through the pointer
    that [FindByID] returned, and [Save] stores the same pointer again under
    the same key; on the map of entities both amount to one update. *)
Definition DeactivateShortURL (id : string) : M unit :=
  if String.eqb id "" then fail ErrIDRequired
  else
    found <- Repo.FindByID id ;;
    match found with
    | None => fail ErrNotFound
    | Some found =>
        let entity := Domain.Deactivate found in
        Repo.Save entity ;;;
        now <- time_Now ;;
        Analytics.SendEvent
          (mkAnalyticsEvent "url_deactivated" (shortURL entity)
             (longURL entity) (userMetadata entity) now)
    end.

End App.

(** * [FindAll] and [GetAllShortURLs] ([memory_repository.go], [service.go],
    [dto.go])

    Go enumerates a map in an order of its own choosing. [order] is that
    order, the keys of the map as the runtime hands them out; the functions
    are the loops of the source run over it. *)

Record ShortURLResponse : Type := mkShortURLResponse {
  r_ID : string;
  r_LongURL : string;
  r_ShortURL : string;
  r_CreatedAt : Time;
  r_Expiry : option Time;
  r_IsActive : bool;
  r_UserMetadata : Metadata
}.

(** An enumeration of the map: each key once. *)
Definition enumerates (order : list string) (w : World) : Prop :=
  NoDup order /\ forall k, k ∈ order <-> is_Some (data w !! k).

Definition FindAll (order : list string) : M (list ShortURL) :=
  gets (fun w => omap (fun k => data w !! k) order).

Definition toResponse (s : ShortURL) : ShortURLResponse :=
  mkShortURLResponse (id s) (longURL s) (shortURL s) (createdAt s)
                     (expiry s) (isActive s) (userMetadata s).

Definition GetAllShortURLs (order : list string)
  : M (list ShortURLResponse) :=
  shortURLs <- FindAll order ;;
  ret (map toResponse shortURLs).

(** * The HTTP layer ([interfaces/http/handler.go], [cmd/.../main.go]) *)

(** The handlers are embedded as the sequence of calls they make on the
    [http.ResponseWriter] and the [net/http] helpers, in order.  What the
    JSON decoder made of the request body ([None] when [Decode] returned an
    error) and whether the JSON encoder fails while writing ([encodeErr],
    its message) are inputs, like the clock. *)

Module Http.

(** The verb [%c] on a byte: the UTF-8 encoding of the code point of that
    number, one byte below 128 and two above. *)
Definition Sprintf_c (char : ascii) : string :=
  let n := nat_of_ascii char in
  if (n <? 128)%nat then String char EmptyString
  else String (ascii_of_nat (192 + n / 64))
         (String (ascii_of_nat (128 + n mod 64)) EmptyString).

(** [err.Error()] *)
Fixpoint ErrorString (e : error) : string :=
  match e with
  | errorsNew msg => msg
  | InvalidCharacter char =>
      "invalid character in base62 string: " ++ Sprintf_c char
  | Errorf_w context cause => context ++ ": " ++ ErrorString cause
  end.

(** [strings.HasPrefix(s, prefix)] *)
Definition HasPrefix (s prefix : string) : bool := String.prefix prefix s.

(** [strings.Contains(s, substr)] *)
Fixpoint Contains (s substr : string) : bool :=
  String.prefix substr s
  || match s with
     | EmptyString => false
     | String _ s' => Contains s' substr
     end.

Definition StatusOK : Z := 200.
Definition StatusNoContent : Z := 204.
Definition StatusFound : Z := 302.
Definition StatusBadRequest : Z := 400.
Definition StatusNotFound : Z := 404.
Definition StatusMethodNotAllowed : Z := 405.
Definition StatusConflict : Z := 409.
Definition StatusInternalServerError : Z := 500.

(** What is handed to [json.NewEncoder(w).Encode]. *)
Inductive payload : Type :=
| ErrorBody (msg : string)
| CreateBody (resp : CreateShortURLResponse)
| ListBody (all : list ShortURLResponse).

Inductive call : Type :=
| HeaderSet (key value : string)
| WriteHeader (code : Z)
| Encode (v : payload)
| HttpError (msg : string) (code : Z)
| Redirect (url : string) (code : Z)
| Write (body : string).

(** The interface the handler is built on, and the service as [main] wires
    it in; [enum] is the order in which the runtime enumerates a map. *)
Class ShortURLServiceInterface : Type := {
  svc_CreateShortURL : CreateShortURLRequest -> M CreateShortURLResponse;
  svc_GetLongURL : GetLongURLRequest -> M string;
  svc_GetAllShortURLs : M (list ShortURLResponse);
  svc_DeactivateShortURL : string -> M unit
}.

Definition AppService (enum : gmap string ShortURL -> list string)
  : ShortURLServiceInterface :=
  {| svc_CreateShortURL := App.CreateShortURL;
     svc_GetLongURL := App.GetLongURL;
     svc_GetAllShortURLs := fun w => GetAllShortURLs (enum (data w)) w;
     svc_DeactivateShortURL := App.DeactivateShortURL |}.

(** [v, err := call()] with the error kept as a value. *)
Definition attempt {A} (m : M A) : M (A + error) :=
  fun w =>
    match m w with
    | (Ok a, w') => (Ok (inl a), w')
    | (Err e, w') => (Ok (inr e), w')
    | (Panic, w') => (Panic, w')
    end.

(** The JSON error reply shared by the handlers:
    [if encodeErr := ...Encode(...); encodeErr != nil { http.Error(...) }] *)
Definition encodeError (code : Z) (msg : string) (encodeErr : option string)
  : list call :=
  [HeaderSet "Content-Type" "application/json"; WriteHeader code;
   Encode (ErrorBody msg)]
  ++ match encodeErr with
     | Some _ =>
         [HttpError "Failed to encode error response"
                    StatusInternalServerError]
     | None => []
     end.

Section Handlers.

Context {service : ShortURLServiceInterface}.

Definition CreateShortURL (method : string)
    (decoded : option CreateShortURLRequest) (encodeErr : option string)
  : M (list call) :=
  if negb (String.eqb method "POST")
  then ret [HttpError "Method not allowed" StatusMethodNotAllowed]
  else
    match decoded with
    | None => ret (encodeError StatusBadRequest "Invalid JSON" encodeErr)
    | Some req =>
        r <- attempt (svc_CreateShortURL req) ;;
        match r with
        | inr err =>
            let code :=
              if Contains (ErrorString err) "already exists"
              then StatusConflict else StatusBadRequest in
            ret ([HeaderSet "Content-Type" "application/json";
                  WriteHeader code; Encode (ErrorBody (ErrorString err))]
                 ++ match encodeErr with
                    | Some _ =>
                        [HttpError "Failed to encode error response"
                                   StatusInternalServerError]
                    | None => []
                    end)
        | inl resp =>
            ret ([HeaderSet "Content-Type" "application/json";
                  WriteHeader StatusOK; Encode (CreateBody resp)]
                 ++ match encodeErr with
                    | Some msg => [HttpError msg StatusInternalServerError]
                    | None => []
                    end)
        end
    end.

(** The error reply of the two resolving handlers. *)
Definition resolveError (err : error) (encodeErr : option string)
  : list call :=
  let code :=
    if Contains (ErrorString err) "not found"
    then StatusNotFound else StatusBadRequest in
  [HeaderSet "Content-Type" "application/json"; WriteHeader code;
   Encode (ErrorBody (ErrorString err))]
  ++ match encodeErr with
     | Some _ =>
         [HttpError "Failed to encode error response"
                    StatusInternalServerError]
     | None => []
     end.

Definition GetLongURL (method : string) (decoded : option GetLongURLRequest)
    (encodeErr : option string) : M (list call) :=
  if negb (String.eqb method "GET")
  then ret [HttpError "Method not allowed" StatusMethodNotAllowed]
  else
    match decoded with
    | None => ret (encodeError StatusBadRequest "Invalid JSON" encodeErr)
    | Some req =>
        r <- attempt (svc_GetLongURL req) ;;
        match r with
        | inr err => ret (resolveError err encodeErr)
        | inl longURL =>
            ret [HeaderSet "Location" longURL; WriteHeader StatusFound]
        end
    end.

(** The fields of the request that [RedirectShortURL] reads. *)
Record Request : Type := mkRequest {
  Method : string;
  Host : string;
  URL_Path : string;
  URL_Scheme : string;
  RemoteAddr : string;
  UserAgent : string;
  Referer : string
}.

Definition RedirectShortURL (r : Request) (encodeErr : option string)
  : M (list call) :=
  if negb (String.eqb (Method r) "GET")
  then ret [HttpError "Method not allowed" StatusMethodNotAllowed]
  else
    let shortURL := (Host r ++ URL_Path r)%string in
    let shortURL :=
      if negb (String.eqb (URL_Scheme r) "")
      then (URL_Scheme r ++ "://" ++ shortURL)%string
      else ("http://" ++ shortURL)%string in
    let req :=
      mkGetLongURLRequest shortURL
        [("ip", RemoteAddr r); ("user_agent", UserAgent r);
         ("referer", Referer r)]%string in
    res <- attempt (svc_GetLongURL req) ;;
    match res with
    | inr err => ret (resolveError err encodeErr)
    | inl longURL => ret [Redirect longURL StatusFound]
    end.

Definition GetAllShortURLs (method : string) (encodeErr : option string)
  : M (list call) :=
  if negb (String.eqb method "GET")
  then ret [HttpError "Method not allowed" StatusMethodNotAllowed]
  else
    r <- attempt svc_GetAllShortURLs ;;
    match r with
    | inr err => ret [HttpError (ErrorString err) StatusInternalServerError]
    | inl shortURLs =>
        ret ([HeaderSet "Content-Type" "application/json";
              Encode (ListBody shortURLs)]
             ++ match encodeErr with
                | Some msg => [HttpError msg StatusInternalServerError]
                | None => []
                end)
    end.

(** [id] is [r.URL.Query().Get("id")], empty when the parameter is
    missing. *)
Definition DeactivateShortURL (method id : string) : M (list call) :=
  if negb (String.eqb method "DELETE")
  then ret [HttpError "Method not allowed" StatusMethodNotAllowed]
  else if String.eqb id ""
  then ret [HttpError "ID parameter is required" StatusBadRequest]
  else
    r <- attempt (svc_DeactivateShortURL id) ;;
    match r with
    | inr err => ret [HttpError (ErrorString err) StatusNotFound]
    | inl _ => ret [WriteHeader StatusNoContent]
    end.

(** The catch-all route that [main] registers under "/". *)
Definition catchAll (r : Request) (encodeErr : option string)
  : M (list call) :=
  if String.eqb (URL_Path r) "/"
  then ret [WriteHeader StatusNotFound; Write "Short URL not found"]
  else if HasPrefix (URL_Path r) "/v1/" || HasPrefix (URL_Path r) "/admin/"
  then ret [WriteHeader StatusNotFound; Write "Endpoint not found"]
  else RedirectShortURL r encodeErr.

End Handlers.

End Http.

(** * Vocabulary of the properties *)

(** ** Numbers denoted by digit strings *)

(** The digit a byte stands for; 0 for a byte outside the alphabet. *)
Definition digit_val (c : ascii) : Z :=
  match Base62.digit_of c with Some d => d | None => 0 end.

(** The number a string of digits denotes, most significant digit first. *)
Fixpoint horner (acc : Z) (s : string) : Z :=
  match s with
  | EmptyString => acc
  | String c s' => horner (62 * acc + digit_val c) s'
  end.

Definition value_of (s : string) : Z := horner 0 s.

(** ** Well-formed identifiers, invariants of calls *)

(** What the tests of the generator check of an identifier: only alphabet
    characters, and a length of at least 7. *)
Definition wellformed_id (s : string) : Prop :=
  Base62.isValidBase62 s = true /\ (7 <= String.length s)%nat.

Definition buffer_ok (w : World) : Prop := Forall wellformed_id (buffer w).

(** [triple I m Q]: the call [m] keeps the invariant [I] whichever way it
    ends, and its result satisfies [Q] when it returns one. *)
Definition triple {A} (I : World -> Prop) (m : M A) (Q : A -> Prop) : Prop :=
  forall w, I w ->
    match m w with
    | (Ok a, w') => Q a /\ I w'
    | (_, w') => I w'
    end.

(** A call never returns an error value. *)
Definition no_err {A} (m : M A) : Prop :=
  forall w, is_Err (fst (m w)) = false.

(** A call that leaves the buffer alone. *)
Definition buffer_kept {A} (m : M A) : Prop :=
  forall w, buffer (snd (m w)) = buffer w.

(** ** The synthesis step in the words of the specification *)

(** The synthesis as the specification words it: a true 64-bit left
    rotation of the scrambled sum, then its absolute value. *)
Definition rotl64 (x k : Z) : Z :=
  let u := x mod 2 ^ 64 in
  Int64.wrap ((u * 2 ^ k) mod 2 ^ 64 + u / 2 ^ (64 - k)).

Definition synthesis_spec (counter now r : Z) : Z :=
  Z.abs (rotl64 (Int64.add (Z.lxor counter (Z.land now 65535)) r) 13).

(** ** Runs of the service *)

(** What [main] sets up: an empty repository, the mock sink, a generator. *)
Definition boot (w0 : World) : outcome unit * World :=
  KGS.NewBase62KeyGenerationService (set_events [] (set_data ∅ w0)).

(** The public operations of the generator, the repository and the
    service. *)
Inductive op : Type :=
| OpGenerateUniqueID
| OpGetMultipleIDs (count : Z)
| OpRefillBuffer
| OpCreateShortURL (req : CreateShortURLRequest)
| OpGetLongURL (req : GetLongURLRequest)
| OpDeactivateShortURL (k : string)
| OpSave (ent : ShortURL)
| OpDelete (k : string).

(** The state an operation leaves behind, whichever way it ends. *)
Definition run (o : op) (w : World) : World :=
  match o with
  | OpGenerateUniqueID => snd (KGS.GenerateUniqueID w)
  | OpGetMultipleIDs count => snd (KGS.GetMultipleIDs count w)
  | OpRefillBuffer => snd (KGS.RefillBuffer w)
  | OpCreateShortURL req => snd (App.CreateShortURL req w)
  | OpGetLongURL req => snd (App.GetLongURL req w)
  | OpDeactivateShortURL k => snd (App.DeactivateShortURL k w)
  | OpSave ent => snd (Repo.Save ent w)
  | OpDelete k => snd (Repo.Delete k w)
  end.

Inductive reachable : World -> Prop :=
| reachable_boot w0 w : boot w0 = (Ok tt, w) -> reachable w
| reachable_run o w : reachable w -> reachable (run o w).

(** A clock that advances a nanosecond per reading from an instant in
    November 2023, a randomness source that always delivers [r], and one
    that always fails. *)
Definition demo_clock (k : nat) : Time := Z.of_nat k + 1700000000000000000.

Definition demo_world (r : option Z) : World :=
  mkWorld demo_clock 0 (fun _ _ => r) 0 0 [] ∅ [] "http://test.com".

Definition demo_booted : World := snd (boot (demo_world (Some 0))).

(** ** Concrete requests and entities of the end-to-end scenarios *)

Definition demo_custom_req : CreateShortURLRequest :=
  mkCreateShortURLRequest "https://example.com" "my-custom-url" None [].

Definition demo_custom_world : World :=
  snd (App.CreateShortURL demo_custom_req demo_booted).

Definition demo_custom_entity : ShortURL :=
  mkShortURL "my-custom-url" "https://example.com" "my-custom-url"
             (demo_clock 1) None true [].

(** A request whose expiry is one hour before the clock's first reading. *)
Definition demo_expired_req : CreateShortURLRequest :=
  mkCreateShortURLRequest "https://example.com" ""
    (Some (demo_clock 0 - 3600000000000)) [].

(** An entity with the empty identifier, as [NewShortURL] accepts it. *)
Definition demo_empty_id_entity : ShortURL :=
  mkShortURL "" "https://example.com" "http://test.com/" (demo_clock 1) None
             true [].

(** ** Vocabulary of the further properties *)

(** The rightmost byte of [s] outside the alphabet, if there is one: the
    first byte at which the right-to-left scan of [DecodeBase62] stops. *)
Fixpoint rightmost_invalid (s : string) : option ascii :=
  match s with
  | EmptyString => None
  | String c s' =>
      match rightmost_invalid s' with
      | Some x => Some x
      | None => if Base62.isBase62Char c then None else Some c
      end
  end.

(** [k] copies of the character '0'. *)
Fixpoint zeros (k : nat) : string :=
  match k with
  | O => EmptyString
  | S k' => String "0"%char (zeros k')
  end.

(** [n] calls of [m] in a row, collecting the results, as the loops of the
    tests make them; the first call that does not return ends the run. *)
Fixpoint call_n {A} (n : nat) (m : M A) : M (list A) :=
  match n with
  | O => ret []
  | S n' => a <- m ;; rest <- call_n n' m ;; ret (a :: rest)
  end.

(** Every entity of the store sits under its own identifier. *)
Definition keyed_by_id (w : World) : Prop :=
  forall k ent, data w !! k = Some ent -> id ent = k.

(** [keeps f m]: the call [m] leaves the component [f] of the state as it
    was, whichever way it ends. *)
Definition keeps {X A} (f : World -> X) (m : M A) : Prop :=
  forall w, f (snd (m w)) = f w.

(** [w1] is [w0] after an entity was created: stored under its own id, one
    [url_created] event logged with time stamp [t], two clock readings
    taken, nothing else touched. *)
Definition created (w0 w1 : World) (ent : ShortURL) (t : Time) : Prop :=
  data w1 = <[id ent := ent]> (data w0) /\
  events w1 = events w0 ++ [mkAnalyticsEvent "url_created" (shortURL ent)
                              (longURL ent) (userMetadata ent) t] /\
  counter w1 = counter w0 /\ buffer w1 = buffer w0 /\ draws w1 = draws w0 /\
  ticks w1 = S (S (ticks w0)) /\ clock w1 = clock w0 /\
  randInt w1 = randInt w0 /\ baseURL w1 = baseURL w0.

(** Two generated-id creations in a row from the booted demo state. *)
Definition demo_generated_req (l : string) : CreateShortURLRequest :=
  mkCreateShortURLRequest l "" None [].

Definition demo_two_created : World :=
  snd (App.CreateShortURL (demo_generated_req "https://b.example")
         (snd (App.CreateShortURL (demo_generated_req "https://a.example")
                 demo_booted))).

(** A GET of the custom short URL of the scenarios, as the server sees
    it. *)
Definition demo_redirect_request : Http.Request :=
  Http.mkRequest "GET" "localhost:8080" "/my-custom-url" "" "127.0.0.1:4711"
                 "curl/8.0" "".

(** * Properties *)

(** ** The test tables of the source, evaluated *)

Example encodeBase62_samples :
  Base62.encodeBase62 0 = "0"%string /\ Base62.encodeBase62 10 = "a"%string /\
  Base62.encodeBase62 61 = "Z"%string /\ Base62.encodeBase62 62 = "10"%string /\
  Base62.encodeBase62 1000000 = "4c92"%string.
Proof. repeat split; reflexivity. Qed.

Example padToLength_samples :
  Base62.padToLength "abc" 7 = "0000abc"%string /\
  Base62.padToLength "abcdefgh" 7 = "abcdefgh"%string /\
  Base62.padToLength "" 7 = "0000000"%string.
Proof. repeat split; reflexivity. Qed.

Example DecodeBase62_samples :
  Base62.DecodeBase62 "4c92" = Ok 1000000 /\
  Base62.DecodeBase62 "" = Ok 0 /\
  Base62.DecodeBase62 "ab-c" = Err (InvalidCharacter "-") /\
  Base62.DecodeBase62 (Base62.encodeBase62 9223372036854775807)
  = Ok 9223372036854775807.
Proof. repeat split; vm_compute; reflexivity. Qed.

(** ** Signed 64-bit arithmetic *)

Section Int64Facts.

Lemma wrap_in_range z : Int64.in_range (Int64.wrap z).
Proof.
  unfold Int64.in_range, Int64.wrap, Int64.min_int, Int64.max_int.
  pose proof (Z.mod_pos_bound (z + 2 ^ 63) (2 ^ 64) ltac:(lia)). lia.
Qed.

Lemma wrap_id z : Int64.in_range z -> Int64.wrap z = z.
Proof.
  unfold Int64.in_range, Int64.wrap, Int64.min_int, Int64.max_int.
  intros H. rewrite Z.mod_small; lia.
Qed.

Lemma wrap_mod z : Int64.wrap z mod 2 ^ 64 = z mod 2 ^ 64.
Proof.
  unfold Int64.wrap.
  rewrite <- Zminus_mod_idemp_l, Z.mod_mod by lia.
  rewrite Zminus_mod_idemp_l. f_equal. lia.
Qed.

Lemma wrap_eq_of_mod a b : a mod 2 ^ 64 = b mod 2 ^ 64 -> Int64.wrap a = Int64.wrap b.
Proof.
  intros H. unfold Int64.wrap. f_equal.
  rewrite <- (Zplus_mod_idemp_l a), <- (Zplus_mod_idemp_l b). now rewrite H.
Qed.

Lemma wrap_add_l a b : Int64.wrap (Int64.wrap a + b) = Int64.wrap (a + b).
Proof.
  apply wrap_eq_of_mod.
  rewrite <- Zplus_mod_idemp_l, wrap_mod, Zplus_mod_idemp_l. reflexivity.
Qed.

Lemma wrap_add_r a b : Int64.wrap (a + Int64.wrap b) = Int64.wrap (a + b).
Proof. rewrite Z.add_comm, wrap_add_l. f_equal. lia. Qed.

Lemma wrap_mul_l a b : Int64.wrap (Int64.wrap a * b) = Int64.wrap (a * b).
Proof.
  apply wrap_eq_of_mod.
  rewrite <- Zmult_mod_idemp_l, wrap_mod, Zmult_mod_idemp_l. reflexivity.
Qed.

Lemma wrap_mul_r a b : Int64.wrap (a * Int64.wrap b) = Int64.wrap (a * b).
Proof. rewrite Z.mul_comm, wrap_mul_l. f_equal. lia. Qed.

End Int64Facts.

(** ** The codec *)

Section CodecFacts.

Import Base62.

Lemma base62_at_digit (n : nat) :
  (n < 62)%nat -> digit_of (base62_at (Z.of_nat n)) = Some (Z.of_nat n).
Proof.
  intros H. do 62 (destruct n as [|n]; [reflexivity|]). lia.
Qed.

Lemma base62_at_get i :
  0 <= i < 62 ->
  String.get (Z.to_nat i) base62Chars = Some (base62_at i)
  /\ digit_of (base62_at i) = Some i.
Proof.
  intros H. split.
  - unfold base62_at.
    destruct (String.get (Z.to_nat i) base62Chars) eqn:E; [reflexivity|].
    exfalso. assert (Hn : (Z.to_nat i < 62)%nat) by lia. clear H.
    revert E. generalize (Z.to_nat i) as n, Hn. intros n Hn'.
    do 62 (destruct n as [|n]; [discriminate|]). lia.
  - rewrite <- (Z2Nat.id i) by lia. apply base62_at_digit. lia.
Qed.

Lemma digit_of_isBase62Char c d : digit_of c = Some d -> isBase62Char c = true.
Proof.
  unfold digit_of, isBase62Char. cbv zeta.
  destruct ((48 <=? _) && (_ <=? 57)); [reflexivity|].
  destruct ((97 <=? _) && (_ <=? 122)); [reflexivity|].
  destruct ((65 <=? _) && (_ <=? 90)); [reflexivity|discriminate].
Qed.

Lemma isBase62Char_digit_of c :
  isBase62Char c = true -> digit_of c = Some (digit_val c).
Proof.
  unfold digit_val, digit_of, isBase62Char. cbv zeta.
  destruct ((48 <=? _) && (_ <=? 57)); [reflexivity|].
  destruct ((97 <=? _) && (_ <=? 122)); [reflexivity|].
  destruct ((65 <=? _) && (_ <=? 90)); [reflexivity|discriminate].
Qed.

Lemma rem62_bounds num : 0 < num -> 0 <= Z.rem num 62 < 62.
Proof. intros H. apply Z.rem_bound_pos; lia. Qed.

Lemma horner_shift acc s :
  horner acc s = acc * 62 ^ Z.of_nat (String.length s) + value_of s.
Proof.
  unfold value_of. revert acc. induction s as [|c s IH]; intros acc.
  - simpl. lia.
  - cbn [horner String.length]. rewrite IH, (IH (62 * 0 + digit_val c)).
    rewrite Nat2Z.inj_succ, Z.pow_succ_r by lia. ring.
Qed.

Lemma horner_snoc acc s c :
  horner acc (s ++ String c EmptyString) = 62 * horner acc s + digit_val c.
Proof.
  revert acc. induction s as [|c' s IH]; intros acc; [reflexivity|].
  change (horner (62 * acc + digit_val c') (s ++ String c EmptyString)
          = 62 * horner (62 * acc + digit_val c') s + digit_val c).
  apply IH.
Qed.

Lemma value_of_cons c s :
  value_of (String c s)
  = digit_val c * 62 ^ Z.of_nat (String.length s) + value_of s.
Proof.
  unfold value_of at 1. cbn [horner]. rewrite horner_shift. ring.
Qed.

(** What the encoding loop leaves in [result]. *)
Lemma encode_loop_value num result :
  0 <= num ->
  value_of (encode_loop num result)
  = num * 62 ^ Z.of_nat (String.length result) + value_of result.
Proof.
  funelim (encode_loop num result); intros Hnum.
  - match goal with IH : 0 <= _ -> value_of _ = _ |- _ => rewrite IH end.
    + rewrite value_of_cons. cbn [String.length].
      destruct (base62_at_get (Z.rem num 62) (rem62_bounds num l)) as [_ Hd].
      unfold digit_val. rewrite Hd.
      rewrite Nat2Z.inj_succ, Z.pow_succ_r by lia.
      pose proof (Z.quot_rem' num 62). nia.
    + apply Z.quot_pos; lia.
  - assert (num = 0) by lia. subst. lia.
Qed.

Lemma encode_loop_valid num result :
  isValidBase62 result = true -> isValidBase62 (encode_loop num result) = true.
Proof.
  funelim (encode_loop num result); intros Hres.
  - match goal with IH : _ -> isValidBase62 _ = true |- _ => apply IH end.
    cbn [isValidBase62]. rewrite Hres, andb_true_r.
    destruct (base62_at_get (Z.rem num 62) (rem62_bounds num l)) as [_ Hd].
    eapply digit_of_isBase62Char, Hd.
  - exact Hres.
Qed.

(** The loop prepends at most as many digits as [num] has in base 62. *)
Lemma encode_loop_length num result : forall k : nat,
  0 <= num < 62 ^ Z.of_nat k ->
  (String.length (encode_loop num result) <= k + String.length result)%nat.
Proof.
  funelim (encode_loop num result); intros k Hk.
  - destruct k as [|k]; [cbn in Hk; lia|].
    match goal with
    | IH : forall _ : nat, _ -> (_ <= _)%nat |- _ => specialize (IH k)
    end.
    rewrite Nat2Z.inj_succ, Z.pow_succ_r in Hk by lia.
    cbn [String.length] in *.
    assert (0 <= Z.quot num 62 < 62 ^ Z.of_nat k).
    { rewrite Z.quot_div_nonneg by lia. split; [apply Z.div_pos; lia|].
      apply Z.div_lt_upper_bound; lia. }
    lia.
  - lia.
Qed.

Lemma encodeBase62_length num (k : nat) :
  0 <= num < 62 ^ Z.of_nat k -> (0 < k)%nat ->
  (String.length (encodeBase62 num) <= k)%nat.
Proof.
  intros Hnum Hk. unfold encodeBase62. destruct (num =? 0).
  - cbn. lia.
  - pose proof (encode_loop_length num EmptyString k Hnum). cbn in *. lia.
Qed.

Lemma encodeBase62_valid num : isValidBase62 (encodeBase62 num) = true.
Proof.
  unfold encodeBase62. destruct (num =? 0); [reflexivity|].
  now apply encode_loop_valid.
Qed.

Lemma encodeBase62_value num : 0 <= num -> value_of (encodeBase62 num) = num.
Proof.
  intros H. unfold encodeBase62. destruct (Z.eqb_spec num 0) as [->|].
  - reflexivity.
  - rewrite encode_loop_value by assumption. cbn. lia.
Qed.

End CodecFacts.

Section DecodeFacts.

Import Base62.

Lemma append_cons a s t : (String a s ++ t)%string = String a (s ++ t).
Proof. reflexivity. Qed.

Lemma append_nil t : (EmptyString ++ t)%string = t.
Proof. reflexivity. Qed.

Lemma get_at_length s1 c s2 :
  String.get (String.length s1) (s1 ++ String c s2) = Some c.
Proof.
  induction s1 as [|c' s1 IH]; [reflexivity|].
  rewrite append_cons. exact IH.
Qed.

Lemma string_snoc n s :
  String.length s = S n ->
  exists s' c, s = (s' ++ String c EmptyString)%string /\ String.length s' = n.
Proof.
  revert n. induction s as [|a s IH]; intros n Hlen; [discriminate|].
  simpl in Hlen. injection Hlen as Hlen. destruct s as [|b s].
  - exists EmptyString, a. simpl in *. split; [reflexivity|lia].
  - destruct n as [|n]; [discriminate|].
    destruct (IH n Hlen) as (s' & c & Hs & Hl).
    exists (String a s'), c. split; [rewrite Hs; reflexivity|simpl; lia].
Qed.

Lemma append_snoc_assoc s c s2 :
  ((s ++ String c EmptyString) ++ s2)%string = (s ++ String c s2)%string.
Proof.
  induction s as [|a s IH]; [reflexivity|].
  rewrite !append_cons, IH. reflexivity.
Qed.

Lemma append_empty_r s : (s ++ EmptyString)%string = s.
Proof.
  induction s as [|a s IH]; [reflexivity|]. now rewrite append_cons, IH.
Qed.

Lemma isValidBase62_snoc s c :
  isValidBase62 (s ++ String c EmptyString)
  = isValidBase62 s && isBase62Char c.
Proof.
  induction s as [|a s IH].
  - rewrite append_nil. simpl. now rewrite andb_true_r.
  - rewrite append_cons. simpl. rewrite IH. now rewrite andb_assoc.
Qed.

(** The decoding loop computes, modulo two's complement, the number its
    valid prefix denotes, scaled by [power] and added to [result]. *)
Lemma decode_loop_prefix n : forall s1 s2 r p,
  String.length s1 = n ->
  isValidBase62 s1 = true ->
  decode_loop (s1 ++ s2) n (Int64.wrap r) (Int64.wrap p)
  = Ok (Int64.wrap (r + p * value_of s1)).
Proof.
  induction n as [|n IH]; intros s1 s2 r p Hlen Hval.
  - destruct s1; [|discriminate]. simpl. f_equal. f_equal. cbn. lia.
  - destruct (string_snoc n s1 Hlen) as (s' & c & -> & Hl).
    rewrite isValidBase62_snoc in Hval. apply andb_true_iff in Hval as [Hv Hc].
    rewrite append_snoc_assoc. cbn [decode_loop].
    rewrite <- Hl at 1. rewrite get_at_length.
    rewrite (isBase62Char_digit_of c Hc).
    unfold Int64.add, Int64.mul.
    rewrite wrap_mul_r, wrap_add_l, wrap_add_r, wrap_mul_l.
    rewrite (IH s' (String c s2) _ _ Hl Hv).
    f_equal. f_equal. unfold value_of. rewrite horner_snoc. ring.
Qed.

End DecodeFacts.

(** C5: for every non-negative [n] that fits a signed 64-bit integer,
    decoding the Base62 encoding of [n] succeeds and gives back [n]
    (digits 0-9, then a-z, then A-Z; the encoding of 0 is "0"). *)
Theorem DecodeBase62_encodeBase62 (n : Z) :
  0 <= n <= Int64.max_int ->
  Base62.DecodeBase62 (Base62.encodeBase62 n) = Ok n.
Proof.
  intros Hn. unfold Base62.DecodeBase62.
  pose proof (decode_loop_prefix
                (String.length (Base62.encodeBase62 n))
                (Base62.encodeBase62 n) EmptyString 0 1 eq_refl
                (encodeBase62_valid n)) as H.
  rewrite append_empty_r in H.
  change (Int64.wrap 0) with 0 in H. change (Int64.wrap 1) with 1 in H.
  rewrite H, encodeBase62_value by lia.
  f_equal. rewrite wrap_id; [lia|].
  unfold Int64.in_range, Int64.min_int, Int64.max_int in *. lia.
Qed.

Lemma DecodeBase62_encodeBase62_witness :
  0 <= 9223372036854775807 <= Int64.max_int /\
  Base62.DecodeBase62 (Base62.encodeBase62 9223372036854775807)
  = Ok 9223372036854775807.
Proof.
  assert (H : 0 <= 9223372036854775807 <= Int64.max_int)
    by (unfold Int64.max_int; lia).
  split; [exact H|exact (DecodeBase62_encodeBase62 9223372036854775807 H)].
Defined.

(** ** The entity *)

Section EntityFacts.

Lemma eqb_empty_false s : s <> EmptyString -> String.eqb s "" = false.
Proof. intros H. now apply String.eqb_neq. Qed.

Lemma NewShortURL_ok w i l s e m :
  l <> EmptyString -> s <> EmptyString ->
  Domain.NewShortURL i l s e m w
  = (Ok (mkShortURL i l s (clock w (ticks w)) e true m),
     set_ticks (S (ticks w)) w).
Proof.
  intros Hl Hs. unfold Domain.NewShortURL.
  rewrite (eqb_empty_false l Hl), (eqb_empty_false s Hs). reflexivity.
Qed.

Lemma NewCustomShortURL_ok w c l e m :
  l <> EmptyString -> c <> EmptyString ->
  Domain.NewCustomShortURL c l e m w
  = (Ok (mkShortURL c l c (clock w (ticks w)) e true m),
     set_ticks (S (ticks w)) w).
Proof.
  intros Hl Hc. unfold Domain.NewCustomShortURL.
  rewrite (eqb_empty_false l Hl), (eqb_empty_false c Hc). reflexivity.
Qed.

End EntityFacts.


(** ** The repository *)

(** C9: [Delete] returns the not-found error iff nothing is stored under the
    key (it returns no other error), and then the store, indeed the whole
    state, is unchanged; when an entity is stored under the key the call
    succeeds, the key is gone afterwards and every other key maps to what
    it mapped to before. *)
Theorem Delete_spec (w : World) (k : string) :
  let r := Repo.Delete k w in
  (fst r = Err Repo.ErrNotFound <-> data w !! k = None) /\
  ((exists err, fst r = Err err) <-> data w !! k = None) /\
  (data w !! k = None -> snd r = w) /\
  (is_Some (data w !! k) ->
     fst r = Ok tt /\ data (snd r) = delete k (data w) /\
     data (snd r) !! k = None /\
     forall k', k' <> k -> data (snd r) !! k' = data w !! k').
Proof.
  cbv zeta. unfold Repo.Delete, bind, gets, fail, modify. cbn.
  destruct (data w !! k) as [ent|] eqn:E; cbn.
  - repeat split; try discriminate.
    + intros [err H]. discriminate.
    + apply lookup_delete_eq.
    + intros k' Hk. now apply lookup_delete_ne.
  - split; [tauto|]. split; [split; eauto|]. split; [reflexivity|].
    intros [x Hx]. discriminate.
Qed.

(** ** The service: resolution *)

Section ResolveFacts.

Lemma GetLongURL_found w req ent :
  req_ShortURL req <> EmptyString ->
  data w !! App.extractIDFromShortURL (req_ShortURL req) = Some ent ->
  fst (App.GetLongURL req w)
  = if negb (isActive ent) then Err App.ErrNotActiveOrExpired
    else match fst (Domain.IsExpired ent w) with
         | Ok true => Err App.ErrNotActiveOrExpired
         | Ok false => Ok (longURL ent)
         | Err err => Err err
         | Panic => Panic
         end.
Proof.
  intros Hne Hfound. unfold App.GetLongURL.
  rewrite (eqb_empty_false _ Hne).
  unfold bind at 1. unfold Repo.FindByID, gets. rewrite Hfound.
  destruct (isActive ent); cbn [negb]; [|reflexivity].
  unfold bind at 1. unfold Domain.IsExpired.
  destruct (expiry ent) as [t|]; cbn; [destruct (t <? _)|]; reflexivity.
Qed.

Lemma GetLongURL_absent w req :
  req_ShortURL req <> EmptyString ->
  data w !! App.extractIDFromShortURL (req_ShortURL req) = None ->
  App.GetLongURL req w = (Err App.ErrNotFound, w).
Proof.
  intros Hne Habs. unfold App.GetLongURL.
  rewrite (eqb_empty_false _ Hne).
  unfold bind, Repo.FindByID, gets. rewrite Habs. reflexivity.
Qed.

End ResolveFacts.

(** C7: for a non-empty input, [GetLongURL] returns the not-found error when
    no entity is stored under the extracted identifier; the one
    not-active-or-expired error when the entity is inactive and also when it
    is expired (the same error value in both cases); and otherwise the
    entity's long URL, with no error. *)
Theorem GetLongURL_spec (w : World) (req : GetLongURLRequest) :
  req_ShortURL req <> EmptyString ->
  let key := App.extractIDFromShortURL (req_ShortURL req) in
  let r := fst (App.GetLongURL req w) in
  (data w !! key = None -> r = Err App.ErrNotFound) /\
  (forall ent, data w !! key = Some ent ->
     (isActive ent = false \/ fst (Domain.IsExpired ent w) = Ok true ->
      r = Err App.ErrNotActiveOrExpired) /\
     (isActive ent = true -> fst (Domain.IsExpired ent w) = Ok false ->
      r = Ok (longURL ent)) /\
     (fst (Domain.IsExpired ent w) = Ok true
      \/ fst (Domain.IsExpired ent w) = Ok false)).
Proof.
  intros Hne. cbv zeta. split.
  - intros Habs. now rewrite GetLongURL_absent.
  - intros ent Hfound. rewrite (GetLongURL_found w req ent Hne Hfound).
    repeat split.
    + intros [Hina|Hexp].
      * now rewrite Hina.
      * rewrite Hexp. now destruct (isActive ent).
    + intros Hact Hexp. now rewrite Hact, Hexp.
    + unfold Domain.IsExpired. destruct (expiry ent) as [t|]; cbn;
        [destruct (t <? _)|]; auto.
Qed.

(** ** The service: creation with a custom identifier *)

Section CustomCreateFacts.

Lemma CreateShortURL_custom_taken w req :
  CustomURL req <> EmptyString -> LongURL req <> EmptyString ->
  is_Some (data w !! CustomURL req) ->
  App.CreateShortURL req w = (Err App.ErrCustomURLExists, w).
Proof.
  intros Hc Hl [ent Hent]. unfold App.CreateShortURL.
  rewrite (eqb_empty_false _ Hl), (eqb_empty_false _ Hc). cbn [negb].
  unfold bind, Repo.FindByID, gets. rewrite Hent. reflexivity.
Qed.

Lemma CreateShortURL_custom_free w req :
  CustomURL req <> EmptyString -> LongURL req <> EmptyString ->
  data w !! CustomURL req = None ->
  exists ent w1,
    App.CreateShortURL req w
    = (Ok (mkCreateShortURLResponse (CustomURL req)), w1)
    /\ data w1 = <[CustomURL req := ent]> (data w)
    /\ ent = mkShortURL (CustomURL req) (LongURL req) (CustomURL req)
               (clock w (ticks w)) (Expiry req) true (UserMetadata req).
Proof.
  intros Hc Hl Hfree. unfold App.CreateShortURL.
  rewrite (eqb_empty_false _ Hl), (eqb_empty_false _ Hc). cbn [negb].
  unfold bind at 1. unfold bind at 1. unfold Repo.FindByID, gets.
  rewrite Hfree. rewrite (NewCustomShortURL_ok _ _ _ _ _ Hl Hc).
  eexists _, _. split; [reflexivity|]. split; reflexivity.
Qed.

End CustomCreateFacts.

(** C8: with a non-empty custom identifier and a non-empty long URL, if the
    store already holds an entity under the custom identifier then [Create]
    returns the custom-URL-already-exists error and leaves the store (the
    whole state) unchanged; in particular, right after a successful
    [Create] with a custom identifier, another [Create] with the same custom
    identifier returns that conflict error. *)
Theorem CreateShortURL_custom_conflict (w : World)
    (req req' : CreateShortURLRequest) :
  CustomURL req <> EmptyString -> LongURL req <> EmptyString ->
  CustomURL req' = CustomURL req -> LongURL req' <> EmptyString ->
  (is_Some (data w !! CustomURL req) ->
   App.CreateShortURL req w = (Err App.ErrCustomURLExists, w)) /\
  (forall resp w1,
     App.CreateShortURL req w = (Ok resp, w1) ->
     resp_ShortURL resp = CustomURL req /\
     App.CreateShortURL req' w1 = (Err App.ErrCustomURLExists, w1)).
Proof.
  intros Hc Hl Hsame Hl'. split.
  - now apply CreateShortURL_custom_taken.
  - intros resp w1 Hok.
    destruct (data w !! CustomURL req) as [old|] eqn:E.
    + rewrite CreateShortURL_custom_taken in Hok by eauto. discriminate.
    + destruct (CreateShortURL_custom_free w req Hc Hl E)
        as (ent & w1' & Hrun & Hdata & _).
      rewrite Hrun in Hok. injection Hok as <- <-. split; [reflexivity|].
      apply CreateShortURL_custom_taken; rewrite ?Hsame; auto.
      rewrite Hdata, lookup_insert_eq. eauto.
Qed.

(** ** The generator *)

Section MonadFacts.

Context {A B : Type}.

Lemma triple_bind I (m : M A) (k : A -> M B) (Q : A -> Prop) (R : B -> Prop) :
  triple I m Q -> (forall a, Q a -> triple I (k a) R) -> triple I (bind m k) R.
Proof.
  intros Hm Hk w HI. unfold bind. specialize (Hm w HI).
  destruct (m w) as [[a| |] w']; try exact Hm.
  destruct Hm as [HQ HI']. exact (Hk a HQ w' HI').
Qed.

Lemma triple_weaken I (m : M A) (Q Q' : A -> Prop) :
  triple I m Q -> (forall a, Q a -> Q' a) -> triple I m Q'.
Proof.
  intros Hm HQ w HI. specialize (Hm w HI).
  destruct (m w) as [[a| |] w']; intuition.
Qed.

Lemma triple_ret I (a : A) (Q : A -> Prop) : Q a -> triple I (ret a) Q.
Proof. intros HQ w HI. cbn. auto. Qed.

Lemma triple_fail I e (Q : A -> Prop) : triple I (fail e) Q.
Proof. intros w HI. exact HI. Qed.

Lemma triple_panic I (Q : A -> Prop) : triple I panic Q.
Proof. intros w HI. exact HI. Qed.

Lemma triple_gets I (f : World -> A) : triple I (gets f) (fun _ => True).
Proof. intros w HI. cbn. auto. Qed.

Lemma triple_wrap_err I ctx (m : M A) Q :
  triple I m Q -> triple I (KGS.wrap_err ctx m) Q.
Proof.
  intros Hm w HI. unfold KGS.wrap_err. specialize (Hm w HI).
  destruct (m w) as [[a| |] w']; exact Hm.
Qed.

Lemma no_err_bind (m : M A) (k : A -> M B) :
  no_err m -> (forall a, no_err (k a)) -> no_err (bind m k).
Proof.
  intros Hm Hk w. unfold bind. specialize (Hm w).
  destruct (m w) as [[a| |] w']; cbn in *; [apply Hk|discriminate|reflexivity].
Qed.

Lemma no_err_wrap_err ctx (m : M A) : no_err m -> no_err (KGS.wrap_err ctx m).
Proof.
  intros Hm w. unfold KGS.wrap_err. specialize (Hm w).
  destruct (m w) as [[a| |] w']; cbn in *; congruence.
Qed.

End MonadFacts.

Section GeneratorFacts.

Import Base62.

Lemma pad_loop_length n s :
  String.length (pad_loop n s) = (n + String.length s)%nat.
Proof.
  revert s. induction n as [|n IH]; intros s; [reflexivity|].
  cbn [pad_loop]. rewrite IH. cbn [String.length]. lia.
Qed.

Lemma pad_loop_valid n s :
  isValidBase62 s = true -> isValidBase62 (pad_loop n s) = true.
Proof.
  revert s. induction n as [|n IH]; intros s Hs; [exact Hs|].
  cbn [pad_loop]. apply IH. cbn [isValidBase62]. now rewrite Hs.
Qed.

Lemma padToLength_length s (n : nat) :
  (n <= String.length (padToLength s (Z.of_nat n)))%nat
  /\ ((String.length s <= n)%nat ->
      String.length (padToLength s (Z.of_nat n)) = n).
Proof.
  unfold padToLength. cbv zeta.
  destruct (Z.geb_spec (Z.of_nat (String.length s)) (Z.of_nat n)).
  - split; lia.
  - rewrite pad_loop_length. split; lia.
Qed.

Lemma padToLength_valid s n :
  isValidBase62 s = true -> isValidBase62 (padToLength s n) = true.
Proof.
  intros Hs. unfold padToLength. cbv zeta.
  destruct (_ >=? _); [exact Hs|now apply pad_loop_valid].
Qed.

(** Whatever integer is synthesised, the identifier made of it is well
    formed. *)
Lemma synthesised_id_wellformed v :
  wellformed_id (padToLength (encodeBase62 v) 7).
Proof.
  split.
  - apply padToLength_valid, encodeBase62_valid.
  - apply (padToLength_length (encodeBase62 v) 7).
Qed.

(** A synthesised value below [62 ^ 7] gives an identifier of exactly 7
    characters; larger values give longer ones (see
    [emitted_id_of_length_8]). *)
Lemma synthesised_id_length_7 v :
  0 <= v < 62 ^ 7 -> String.length (padToLength (encodeBase62 v) 7) = 7%nat.
Proof.
  intros Hv. apply (padToLength_length (encodeBase62 v) 7).
  apply encodeBase62_length; [exact Hv|lia].
Qed.

Lemma generateNonSequentialValue_run w :
  KGS.generateNonSequentialValue w
  = let w' := set_draws (S (draws w)) (set_ticks (S (ticks w)) w) in
    match randInt w (draws w) 1000 with
    | Some r => (Ok (KGS.scramble (counter w) (clock w (ticks w)) r), w')
    | None => (Panic, w')
    end.
Proof.
  unfold KGS.generateNonSequentialValue, bind, time_Now, gets, rand_Int. cbn.
  destruct (randInt w (draws w) 1000); reflexivity.
Qed.

(** One turn of the loop of [generateMultipleIDsInternal]. *)
Lemma generate_loop_step n ids w :
  KGS.generate_loop (S n) ids w
  = match randInt w (draws w) 1000 with
    | Some r =>
        KGS.generate_loop n
          (ids ++ [padToLength
                     (encodeBase62
                        (KGS.scramble (counter w) (clock w (ticks w)) r)) 7])
          (set_counter (Int64.add (counter w) 1)
             (set_draws (S (draws w)) (set_ticks (S (ticks w)) w)))
    | None => (Panic, set_draws (S (draws w)) (set_ticks (S (ticks w)) w))
    end.
Proof.
  cbn [KGS.generate_loop]. unfold bind at 1.
  rewrite generateNonSequentialValue_run. cbv zeta.
  destruct (randInt w (draws w) 1000); reflexivity.
Qed.

(** One synthesis on demand: the identifier is the padded encoding of the
    scrambled counter, and the counter is advanced by one (modulo 2^64). *)
Lemma GenerateUniqueID_synthesis w r :
  buffer w = [] -> randInt w (draws w) 1000 = Some r ->
  exists w',
    KGS.GenerateUniqueID w
    = (Ok (padToLength
             (encodeBase62 (KGS.scramble (counter w) (clock w (ticks w)) r))
             7), w')
    /\ counter w' = Int64.add (counter w) 1 /\ buffer w' = [].
Proof.
  intros Hbuf Hr. unfold KGS.GenerateUniqueID, bind at 1, gets. rewrite Hbuf.
  unfold bind, KGS.generateMultipleIDsInternal. cbn [Z.ltb Z.compare].
  change (Z.to_nat 1) with 1%nat. rewrite generate_loop_step, Hr. cbn.
  eexists. split; [reflexivity|]. split; [reflexivity|exact Hbuf].
Qed.

End GeneratorFacts.

Section GeneratorInvariant.

Lemma buffer_kept_triple {A} (m : M A) :
  buffer_kept m -> triple buffer_ok m (fun _ => True).
Proof.
  intros Hm w HI. specialize (Hm w). unfold buffer_ok in *.
  destruct (m w) as [[a| |] w']; cbn in Hm; rewrite Hm; auto.
Qed.

Lemma buffer_kept_bind {A B} (m : M A) (k : A -> M B) :
  buffer_kept m -> (forall a, buffer_kept (k a)) -> buffer_kept (bind m k).
Proof.
  intros Hm Hk w. unfold bind. specialize (Hm w).
  destruct (m w) as [[a| |] w']; cbn in *; try exact Hm.
  now rewrite Hk.
Qed.

Ltac kept :=
  repeat first
    [ apply buffer_kept_bind; [|intros ?]
    | match goal with
      | |- buffer_kept (if ?b then _ else _) => destruct b
      | |- buffer_kept (match ?x with _ => _ end) => destruct x
      end
    | (intros ?; reflexivity) ].

Lemma IsExpired_kept ent : buffer_kept (Domain.IsExpired ent).
Proof. unfold Domain.IsExpired. kept. Qed.

Lemma NewShortURL_kept i l s e m : buffer_kept (Domain.NewShortURL i l s e m).
Proof. unfold Domain.NewShortURL. kept. Qed.

Lemma NewCustomShortURL_kept c l e m :
  buffer_kept (Domain.NewCustomShortURL c l e m).
Proof. unfold Domain.NewCustomShortURL. kept. Qed.

Lemma Save_kept ent : buffer_kept (Repo.Save ent).
Proof. intros w. reflexivity. Qed.

Lemma Delete_kept k : buffer_kept (Repo.Delete k).
Proof. unfold Repo.Delete. kept. Qed.

Lemma GetLongURL_kept req : buffer_kept (App.GetLongURL req).
Proof.
  unfold App.GetLongURL, Repo.FindByID, Analytics.SendEvent.
  pose proof IsExpired_kept. kept; auto.
Qed.

Lemma DeactivateShortURL_kept k : buffer_kept (App.DeactivateShortURL k).
Proof.
  unfold App.DeactivateShortURL, Repo.FindByID, Analytics.SendEvent.
  pose proof Save_kept. kept; auto.
Qed.

Lemma generate_loop_triple n : forall ids,
  Forall wellformed_id ids ->
  triple buffer_ok (KGS.generate_loop n ids) (Forall wellformed_id).
Proof.
  induction n as [|n IH]; intros ids Hids w HI.
  - cbn. auto.
  - rewrite generate_loop_step.
    destruct (randInt w (draws w) 1000) as [r|]; [|exact HI].
    apply IH; [|exact HI].
    apply Forall_app. split; [exact Hids|].
    constructor; [apply synthesised_id_wellformed|constructor].
Qed.

Lemma generateMultipleIDsInternal_triple count :
  triple buffer_ok (KGS.generateMultipleIDsInternal count)
         (Forall wellformed_id).
Proof.
  unfold KGS.generateMultipleIDsInternal.
  destruct (count <? 0); [apply triple_panic|].
  apply generate_loop_triple. constructor.
Qed.

Lemma GenerateUniqueID_triple :
  triple buffer_ok KGS.GenerateUniqueID wellformed_id.
Proof.
  intros w HI. unfold KGS.GenerateUniqueID, bind at 1, gets.
  destruct (buffer w) as [|i rest] eqn:E.
  - pose proof (generateMultipleIDsInternal_triple 1 w HI) as H.
    unfold bind.
    destruct (KGS.generateMultipleIDsInternal 1 w) as [[ids| |] w'];
      try exact H.
    destruct H as [Hids HI']. destruct ids as [|i ids]; [exact HI'|].
    cbn. split; [now inversion Hids|exact HI'].
  - unfold buffer_ok in HI. rewrite E in HI. inversion HI; subst.
    cbn. split; assumption.
Qed.

Lemma RefillBuffer_triple : triple buffer_ok KGS.RefillBuffer (fun _ => True).
Proof.
  unfold KGS.RefillBuffer. eapply triple_bind; [apply triple_gets|].
  intros buf _. destruct (_ <? 100); [|now apply triple_ret].
  eapply triple_bind.
  - apply triple_wrap_err, generateMultipleIDsInternal_triple.
  - intros newIDs Hnew w HI. cbn. split; [exact I|].
    apply Forall_app. split; assumption.
Qed.

Lemma NewBase62KeyGenerationService_ok w w' :
  KGS.NewBase62KeyGenerationService w = (Ok tt, w') -> buffer_ok w'.
Proof.
  unfold KGS.NewBase62KeyGenerationService, bind, rand_Int, big_Int64.
  destruct (randInt w (draws w) 1000000); cbn; [|discriminate].
  intros H. injection H as <-. constructor.
Qed.

Lemma CreateShortURL_triple req :
  triple buffer_ok (App.CreateShortURL req) (fun _ => True).
Proof.
  unfold App.CreateShortURL.
  destruct (String.eqb (LongURL req) ""); [apply triple_fail|].
  eapply triple_bind with (Q := fun _ => True).
  - destruct (negb _).
    + apply buffer_kept_triple. unfold Repo.FindByID.
      pose proof NewCustomShortURL_kept. kept; auto.
    + eapply triple_bind.
      * apply triple_wrap_err, GenerateUniqueID_triple.
      * intros i _. apply buffer_kept_triple. unfold App.buildShortURL.
        pose proof NewShortURL_kept. kept; auto.
  - intros ent _. apply buffer_kept_triple.
    unfold Analytics.SendEvent. pose proof Save_kept. kept; auto.
Qed.

End GeneratorInvariant.

Lemma reachable_buffer_ok w : reachable w -> buffer_ok w.
Proof.
  induction 1 as [w0 w Hboot|o w Hreach IH].
  - eapply NewBase62KeyGenerationService_ok, Hboot.
  - assert (Hstep : forall A (m : M A) Q, triple buffer_ok m Q ->
                                          buffer_ok (snd (m w))).
    { intros A m Q Hm. specialize (Hm w IH).
      destruct (m w) as [[a| |] w']; cbn; tauto. }
    destruct o; cbn [run].
    + eapply Hstep, GenerateUniqueID_triple.
    + eapply Hstep, generateMultipleIDsInternal_triple.
    + eapply Hstep, RefillBuffer_triple.
    + eapply Hstep, CreateShortURL_triple.
    + eapply Hstep, buffer_kept_triple, GetLongURL_kept.
    + eapply Hstep, buffer_kept_triple, DeactivateShortURL_kept.
    + eapply Hstep, buffer_kept_triple, Save_kept.
    + eapply Hstep, buffer_kept_triple, Delete_kept.
Qed.

Lemma demo_booted_reachable : reachable demo_booted.
Proof. apply (reachable_boot (demo_world (Some 0))). reflexivity. Qed.

(** C1, as the code has it: in every state the service can reach, every
    identifier returned by [GenerateUniqueID] (popped from the buffer or
    synthesised on demand) and every identifier returned by [GetMultipleIDs]
    consists only of characters of [[0-9a-zA-Z]] and has length at least 7. *)
Theorem emitted_ids_wellformed (w : World) :
  reachable w ->
  (forall i w', KGS.GenerateUniqueID w = (Ok i, w') ->
     Base62.isValidBase62 i = true /\ (7 <= String.length i)%nat) /\
  (forall count ids w', KGS.GetMultipleIDs count w = (Ok ids, w') ->
     forall i, In i ids ->
       Base62.isValidBase62 i = true /\ (7 <= String.length i)%nat).
Proof.
  intros Hreach. apply reachable_buffer_ok in Hreach. split.
  - intros i w' Hrun. pose proof (GenerateUniqueID_triple w Hreach) as H.
    rewrite Hrun in H. apply H.
  - intros count ids w' Hrun i Hin.
    pose proof (generateMultipleIDsInternal_triple count w Hreach) as H.
    unfold KGS.GetMultipleIDs in Hrun. rewrite Hrun in H.
    destruct H as [Hids _]. rewrite Forall_forall in Hids.
    apply Hids, list_elem_of_In, Hin.
Qed.

Lemma emitted_ids_wellformed_witness :
  reachable demo_booted /\
  (Base62.isValidBase62 "3XbhVc6Q" = true
   /\ (7 <= String.length "3XbhVc6Q")%nat).
Proof.
  split; [exact demo_booted_reachable|].
  exact (proj1 (emitted_ids_wellformed demo_booted demo_booted_reachable)
           "3XbhVc6Q" (snd (KGS.GenerateUniqueID demo_booted)) eq_refl).
Defined.

(** C1 as stated fails: the generator booted at Unix time 1700000000 with a
    random offset of 0 synthesises, as its first identifier, the
    8-character "3XbhVc6Q" (1700000000 shifted left by 13 bits is above
    62^7). *)
Lemma emitted_id_of_length_8 :
  ~ (forall w, reachable w ->
       forall i w', KGS.GenerateUniqueID w = (Ok i, w') ->
         String.length i = 7%nat /\ Base62.isValidBase62 i = true).
Proof.
  intros H.
  destruct (H demo_booted demo_booted_reachable "3XbhVc6Q"
              (snd (KGS.GenerateUniqueID demo_booted)) eq_refl) as [Hlen _].
  discriminate Hlen.
Qed.

(** ** The generator and a failing randomness source *)

Section RandomnessFailure.

Lemma generate_loop_no_err n : forall ids, no_err (KGS.generate_loop n ids).
Proof.
  induction n as [|n IH]; intros ids w; [reflexivity|].
  rewrite generate_loop_step.
  destruct (randInt w (draws w) 1000); [apply IH|reflexivity].
Qed.

Lemma generateMultipleIDsInternal_no_err count :
  no_err (KGS.generateMultipleIDsInternal count).
Proof.
  unfold KGS.generateMultipleIDsInternal.
  destruct (count <? 0); [intros w; reflexivity|apply generate_loop_no_err].
Qed.

Lemma GenerateUniqueID_no_err : no_err KGS.GenerateUniqueID.
Proof.
  intros w. unfold KGS.GenerateUniqueID, bind at 1, gets.
  destruct (buffer w); [|reflexivity].
  apply no_err_bind; [apply generateMultipleIDsInternal_no_err|].
  intros [|i ids] w'; reflexivity.
Qed.

Lemma RefillBuffer_no_err : no_err KGS.RefillBuffer.
Proof.
  intros w. unfold KGS.RefillBuffer, bind at 1, gets.
  destruct (_ <? 100); [|reflexivity].
  pose proof (generateMultipleIDsInternal_no_err 1000 w) as H.
  unfold bind, KGS.wrap_err.
  destruct (KGS.generateMultipleIDsInternal 1000 w) as [[ids| |] w'];
    cbn in *; congruence.
Qed.

Lemma NewBase62KeyGenerationService_no_err :
  no_err KGS.NewBase62KeyGenerationService.
Proof.
  intros w. unfold KGS.NewBase62KeyGenerationService, bind, rand_Int.
  destruct (randInt w (draws w) 1000000); reflexivity.
Qed.

(** The loop panics when any of its draws fails. *)
Lemma generate_loop_draw_fails n : forall ids w j,
  (j < n)%nat -> randInt w (draws w + j) 1000 = None ->
  fst (KGS.generate_loop n ids w) = Panic.
Proof.
  induction n as [|n IH]; intros ids w j Hj Hfail; [lia|].
  rewrite generate_loop_step.
  destruct (randInt w (draws w) 1000) as [r|] eqn:E; [|reflexivity].
  destruct j as [|j].
  - rewrite Nat.add_0_r in Hfail. congruence.
  - apply (IH _ _ j); [lia|]. cbn. rewrite <- Hfail. f_equal. lia.
Qed.

Lemma generateMultipleIDsInternal_draw_fails count w j :
  0 <= j < count -> randInt w (draws w + Z.to_nat j) 1000 = None ->
  fst (KGS.generateMultipleIDsInternal count w) = Panic.
Proof.
  intros Hj Hfail. unfold KGS.generateMultipleIDsInternal.
  destruct (Z.ltb_spec count 0); [lia|].
  apply (generate_loop_draw_fails _ _ _ (Z.to_nat j)); [lia|exact Hfail].
Qed.

End RandomnessFailure.

(** C3, as the code has it: the generator drops the error of the
    randomness source and none of its operations ever returns an error
    value.  When the source fails at construction, or at any draw made
    while identifiers are synthesised, the operation aborts with a runtime
    panic (the absent random number is dereferenced); so it does not
    return an identifier built from a degraded random component either. *)
Theorem randomness_failure_panics (w : World) :
  (randInt w (draws w) 1000000 = None ->
   fst (KGS.NewBase62KeyGenerationService w) = Panic) /\
  (buffer w = [] -> randInt w (draws w) 1000 = None ->
   fst (KGS.GenerateUniqueID w) = Panic) /\
  (forall count j, 0 <= j < count ->
     randInt w (draws w + Z.to_nat j) 1000 = None ->
     fst (KGS.GetMultipleIDs count w) = Panic) /\
  (forall j, Z.of_nat (List.length (buffer w)) < 100 -> 0 <= j < 1000 ->
     randInt w (draws w + Z.to_nat j) 1000 = None ->
     fst (KGS.RefillBuffer w) = Panic) /\
  is_Err (fst (KGS.NewBase62KeyGenerationService w)) = false /\
  is_Err (fst (KGS.GenerateUniqueID w)) = false /\
  (forall count, is_Err (fst (KGS.GetMultipleIDs count w)) = false) /\
  is_Err (fst (KGS.RefillBuffer w)) = false.
Proof.
  repeat split.
  - intros Hfail.
    unfold KGS.NewBase62KeyGenerationService, bind, rand_Int.
    rewrite Hfail. reflexivity.
  - intros Hbuf Hfail. unfold KGS.GenerateUniqueID, bind at 1, gets.
    rewrite Hbuf. unfold bind.
    pose proof (generateMultipleIDsInternal_draw_fails 1 w 0 ltac:(lia)) as H.
    rewrite Nat.add_0_r in H. specialize (H Hfail).
    destruct (KGS.generateMultipleIDsInternal 1 w) as [[ids| |] w'];
      cbn in H; try discriminate. reflexivity.
  - intros count j Hj Hfail.
    now apply (generateMultipleIDsInternal_draw_fails count w j).
  - intros j Hlow Hj Hfail. unfold KGS.RefillBuffer, bind at 1, gets.
    destruct (Z.ltb_spec (Z.of_nat (List.length (buffer w))) 100); [|lia].
    pose proof (generateMultipleIDsInternal_draw_fails 1000 w j Hj Hfail) as Hg.
    unfold bind, KGS.wrap_err.
    destruct (KGS.generateMultipleIDsInternal 1000 w) as [[ids| |] w'];
      cbn in Hg; try discriminate. reflexivity.
  - apply NewBase62KeyGenerationService_no_err.
  - apply GenerateUniqueID_no_err.
  - intros count. apply generateMultipleIDsInternal_no_err.
  - apply RefillBuffer_no_err.
Qed.

Lemma randomness_failure_panics_witness :
  fst (KGS.GenerateUniqueID (demo_world None)) = Panic.
Proof.
  exact (proj1 (proj2 (randomness_failure_panics (demo_world None)))
           eq_refl eq_refl).
Defined.

(** C3 as stated fails: with an empty buffer and a failing randomness
    source, [GenerateUniqueID] does not return an error. *)
Lemma randomness_failure_is_no_error :
  ~ (forall w, buffer w = [] -> randInt w (draws w) 1000 = None ->
       exists err, fst (KGS.GenerateUniqueID w) = Err err).
Proof.
  intros H. destruct (H (demo_world None) eq_refl eq_refl) as [err Herr].
  discriminate Herr.
Qed.

(** ** One synthesis step *)

Section SynthesisFacts.

Lemma land_low_bits q b : 0 <= b < 2 ^ 13 -> Z.land (q * 2 ^ 13) b = 0.
Proof.
  intros Hb. apply Z.bits_inj'. intros n Hn.
  rewrite Z.land_spec, Z.bits_0.
  destruct (Z.lt_ge_cases n 13) as [Hlow|Hhigh].
  - rewrite Z.mul_pow2_bits_low by lia. reflexivity.
  - destruct (Z.eq_dec b 0) as [->|Hnz].
    + rewrite Z.bits_0. apply andb_false_r.
    + rewrite (Z.bits_above_log2 b n); [apply andb_false_r|lia|].
      assert (Z.log2 b < 13) by (apply Z.log2_lt_pow2; lia). lia.
Qed.

Lemma lor_low_bits q b : 0 <= b < 2 ^ 13 -> Z.lor (q * 2 ^ 13) b = q * 2 ^ 13 + b.
Proof.
  intros Hb. pose proof (Z.add_lor_land (q * 2 ^ 13) b) as H.
  rewrite (land_low_bits q b Hb) in H. lia.
Qed.

(** On a non-negative sum the shift-and-or of the code is the rotation. *)
Lemma shift_or_is_rotation s :
  0 <= s < 2 ^ 63 ->
  Z.lor (Int64.shl s 13) (Int64.shr s (64 - 13)) = rotl64 s 13.
Proof.
  intros Hs. unfold Int64.shl, Int64.shr, rotl64. cbv zeta.
  rewrite Z.shiftl_mul_pow2, Z.shiftr_div_pow2 by lia.
  rewrite (Z.mod_small s) by lia.
  change (64 - 13) with 51.
  assert (Hb : 0 <= s / 2 ^ 51 < 2 ^ 12).
  { split; [apply Z.div_pos; lia|apply Z.div_lt_upper_bound; lia]. }
  set (b := s / 2 ^ 51) in *.
  assert (Ha : exists q, (s * 2 ^ 13) mod 2 ^ 64 = q * 2 ^ 13
                         /\ 0 <= q < 2 ^ 51).
  { exists (s mod 2 ^ 51). split.
    - change (2 ^ 64) with (2 ^ 51 * 2 ^ 13).
      rewrite Z.mul_mod_distr_r by lia. reflexivity.
    - apply Z.mod_pos_bound. lia. }
  destruct Ha as (q & Ha & Hq).
  assert (Hw : Int64.wrap (s * 2 ^ 13)
               = if q <? 2 ^ 50 then q * 2 ^ 13 else q * 2 ^ 13 - 2 ^ 64).
  { rewrite (wrap_eq_of_mod (s * 2 ^ 13) (q * 2 ^ 13)).
    - unfold Int64.wrap. destruct (Z.ltb_spec q (2 ^ 50)).
      + rewrite Z.mod_small; lia.
      + replace (q * 2 ^ 13 + 2 ^ 63)
          with (q * 2 ^ 13 - 2 ^ 63 + 1 * 2 ^ 64) by lia.
        rewrite Z.mod_add, Z.mod_small; lia.
    - rewrite <- Ha. now rewrite Z.mod_mod by lia. }
  rewrite Hw, Ha. unfold Int64.wrap. destruct (Z.ltb_spec q (2 ^ 50)).
  - rewrite lor_low_bits by lia. rewrite Z.mod_small; lia.
  - replace (q * 2 ^ 13 - 2 ^ 64) with ((q - 2 ^ 51) * 2 ^ 13) by lia.
    rewrite lor_low_bits by lia.
    replace (q * 2 ^ 13 + b + 2 ^ 63)
      with (q * 2 ^ 13 + b - 2 ^ 63 + 1 * 2 ^ 64) by lia.
    rewrite Z.mod_add, Z.mod_small; lia.
Qed.

(** The rotated value is the least [int64] only for the sum [2 ^ 50]. *)
Lemma rotl64_min_int s :
  0 <= s < 2 ^ 63 -> rotl64 s 13 = Int64.min_int -> s = 2 ^ 50.
Proof.
  intros Hs. unfold rotl64, Int64.min_int, Int64.wrap. cbv zeta.
  rewrite (Z.mod_small s) by lia. change (64 - 13) with 51.
  pose proof (Z.div_mod s (2 ^ 51) ltac:(lia)) as Hdm.
  pose proof (Z.mod_pos_bound s (2 ^ 51) ltac:(lia)) as Hm.
  assert (Hb : 0 <= s / 2 ^ 51 < 2 ^ 12).
  { split; [apply Z.div_pos; lia|apply Z.div_lt_upper_bound; lia]. }
  assert (Ha : (s * 2 ^ 13) mod 2 ^ 64 = (s mod 2 ^ 51) * 2 ^ 13).
  { change (2 ^ 64) with (2 ^ 51 * 2 ^ 13).
    now rewrite Z.mul_mod_distr_r by lia. }
  rewrite Ha. set (q := s mod 2 ^ 51) in *. set (b := s / 2 ^ 51) in *.
  intros H.
  assert (Hsum : (q * 2 ^ 13 + b + 2 ^ 63) mod 2 ^ 64 = 0) by lia.
  destruct (Z.ltb_spec q (2 ^ 50)).
  - rewrite Z.mod_small in Hsum; lia.
  - replace (q * 2 ^ 13 + b + 2 ^ 63)
      with (q * 2 ^ 13 + b - 2 ^ 63 + 1 * 2 ^ 64) in Hsum by lia.
    rewrite Z.mod_add, Z.mod_small in Hsum; lia.
Qed.

Lemma rotl64_in_range x k : Int64.in_range (rotl64 x k).
Proof. apply wrap_in_range. Qed.

(** Where the code does compute what the specification says: the scrambled
    sum is non-negative, fits 64 bits and is not [2 ^ 50]. *)
Lemma scramble_agrees_with_rotation counter now r :
  let s := Z.lxor counter (Z.land now 65535) + r in
  0 <= s < 2 ^ 63 -> s <> 2 ^ 50 ->
  KGS.scramble counter now r = synthesis_spec counter now r
  /\ 0 <= KGS.scramble counter now r.
Proof.
  cbv zeta. intros Hs Hne. unfold KGS.scramble, synthesis_spec, UnixNano.
  cbv zeta. unfold Int64.add.
  rewrite (wrap_id (_ + r)) by (unfold Int64.in_range, Int64.min_int,
                                 Int64.max_int; lia).
  rewrite shift_or_is_rotation by lia.
  pose proof (rotl64_in_range (Z.lxor counter (Z.land now 65535) + r) 13) as Hr.
  pose proof (rotl64_min_int _ Hs) as Hmin.
  set (v := rotl64 _ 13) in *.
  unfold Int64.in_range, Int64.min_int, Int64.max_int in *.
  destruct (Z.ltb_spec v 0).
  - unfold Int64.neg. rewrite wrap_id.
    + lia.
    + unfold Int64.in_range, Int64.min_int, Int64.max_int.
      assert (v <> - 2 ^ 63) by (intros Hv; apply Hne, Hmin, Hv). lia.
  - lia.
Qed.

End SynthesisFacts.

(** C4, where the code departs from it.  With the counter at [2 ^ 50], a
    clock reading whose low 16 bits are 0 and the random value 0, the
    synthesis step returns -9223372036854775808: the rotated value is the
    least [int64] and negating it overflows back to itself, so the result is
    negative although the claim (and the comment and the test in the source)
    say the absolute value makes it non-negative.  With a negative
    scrambled sum the shift-and-or is not a rotation, because the right
    shift of a signed value extends the sign: from the counter
    [-(2 ^ 63) + 1] the code returns 4096 where the rotation gives 12288. *)
Theorem synthesis_step_departs :
  fst (KGS.generateNonSequentialValue
         (set_counter (2 ^ 50) (demo_world (Some 0))))
  = Ok (-9223372036854775808)
  /\ synthesis_spec (2 ^ 50) (demo_clock 0) 0 = 9223372036854775808
  /\ fst (KGS.generateNonSequentialValue
            (set_counter (- 2 ^ 63 + 1) (demo_world (Some 0))))
     = Ok 4096
  /\ synthesis_spec (- 2 ^ 63 + 1) (demo_clock 0) 0 = 12288.
Proof. repeat split; vm_compute; reflexivity. Qed.

(** ** Identifier extraction *)

Section ExtractFacts.

Lemma Split_nonempty s sep : Strings.Split s sep <> [].
Proof.
  destruct s as [|c s]; cbn; [discriminate|].
  destruct (Ascii.eqb c sep); [discriminate|].
  destruct (Strings.Split s sep); discriminate.
Qed.

Lemma Split_no_sep s sep :
  Strings.ContainsByte s sep = false -> Strings.Split s sep = [s].
Proof.
  induction s as [|c s IH]; cbn; [reflexivity|].
  destruct (Ascii.eqb c sep); cbn; [discriminate|].
  intros H. now rewrite (IH H).
Qed.

Lemma Split_append p q sep :
  Strings.Split (p ++ String sep q) sep
  = Strings.Split p sep ++ Strings.Split q sep.
Proof.
  induction p as [|c p IH].
  - rewrite append_nil. cbn. now rewrite Ascii.eqb_refl.
  - rewrite append_cons. cbn. rewrite IH.
    destruct (Ascii.eqb c sep); [reflexivity|].
    pose proof (Split_nonempty p sep).
    destruct (Strings.Split p sep) as [|part parts]; [congruence|reflexivity].
Qed.

Lemma extractIDFromShortURL_bare k :
  Strings.ContainsByte k "/" = false -> App.extractIDFromShortURL k = k.
Proof.
  intros H. unfold App.extractIDFromShortURL. now rewrite (Split_no_sep k "/" H).
Qed.

Lemma extractIDFromShortURL_full p k :
  Strings.ContainsByte k "/" = false ->
  App.extractIDFromShortURL (p ++ "/" ++ k) = k.
Proof.
  intros H. unfold App.extractIDFromShortURL.
  change (p ++ "/" ++ k)%string with (p ++ String "/" k)%string.
  rewrite Split_append, (Split_no_sep k "/" H), last_snoc. reflexivity.
Qed.

Lemma isValidBase62_no_slash s :
  Base62.isValidBase62 s = true -> Strings.ContainsByte s "/" = false.
Proof.
  induction s as [|c s IH]; cbn; [reflexivity|].
  intros H. apply andb_true_iff in H as [Hc Hs]. rewrite (IH Hs), orb_false_r.
  destruct (Ascii.eqb_spec c "/") as [->|]; [discriminate Hc|reflexivity].
Qed.

Lemma append_slash_nonempty p k : (p ++ "/" ++ k)%string <> EmptyString.
Proof. destruct p; discriminate. Qed.

End ExtractFacts.

Example extractIDFromShortURL_samples :
  App.extractIDFromShortURL "http://test.com/abc123" = "abc123"%string /\
  App.extractIDFromShortURL "abc123" = "abc123"%string /\
  App.extractIDFromShortURL "http://test.com/path/def456" = "def456"%string /\
  Strings.TrimSuffix "http://test.com/" "/" = "http://test.com"%string /\
  Strings.TrimSuffix "http://test.com" "/" = "http://test.com"%string /\
  Strings.TrimSuffix "http://test.com//" "/" = "http://test.com/"%string.
Proof. repeat split; reflexivity. Qed.


(** ** The service: creation with a generated identifier, then resolution *)

Section GeneratedCreateFacts.

(** With a well-formed buffer, and a randomness source that delivers when
    the buffer is empty, [GenerateUniqueID] returns a well-formed
    identifier and touches nothing but the generator and the cursors. *)
Lemma GenerateUniqueID_runs w :
  buffer_ok w ->
  (buffer w = [] -> randInt w (draws w) 1000 <> None) ->
  exists i wg,
    KGS.GenerateUniqueID w = (Ok i, wg) /\ wellformed_id i /\
    data wg = data w /\ baseURL wg = baseURL w /\ clock wg = clock w /\
    events wg = events w.
Proof.
  intros Hok Hrand. unfold KGS.GenerateUniqueID, bind at 1, gets.
  destruct (buffer w) as [|i rest] eqn:E.
  - specialize (Hrand eq_refl).
    unfold bind, KGS.generateMultipleIDsInternal. cbn [Z.ltb Z.compare].
    change (Z.to_nat 1) with 1%nat. rewrite generate_loop_step.
    destruct (randInt w (draws w) 1000) as [r|]; [|congruence].
    cbn. eexists _, _. split; [reflexivity|].
    split; [apply synthesised_id_wellformed|]. repeat split.
  - unfold buffer_ok in Hok. rewrite E in Hok. inversion Hok; subst.
    cbn. eexists _, _. split; [reflexivity|]. split; [assumption|].
    repeat split.
Qed.

Lemma CreateShortURL_generated_run w req i wg :
  LongURL req <> EmptyString -> CustomURL req = EmptyString ->
  KGS.GenerateUniqueID w = (Ok i, wg) ->
  let short := (Strings.TrimSuffix (baseURL wg) "/" ++ "/" ++ i)%string in
  let ent := mkShortURL i (LongURL req) short (clock wg (ticks wg))
               (Expiry req) true (UserMetadata req) in
  exists w1,
    App.CreateShortURL req w = (Ok (mkCreateShortURLResponse short), w1) /\
    data w1 = <[i := ent]> (data wg) /\
    clock w1 = clock wg /\ ticks w1 = S (S (ticks wg)).
Proof.
  intros Hl Hc Hgen. cbv zeta. unfold App.CreateShortURL.
  rewrite (eqb_empty_false _ Hl), Hc. cbn [String.eqb negb].
  unfold bind at 1. unfold bind at 1. unfold KGS.wrap_err. rewrite Hgen.
  unfold bind at 1. unfold App.buildShortURL, bind at 1, gets, ret.
  rewrite NewShortURL_ok by (auto using append_slash_nonempty).
  cbn. eexists. split; [reflexivity|]. repeat split.
Qed.

End GeneratedCreateFacts.

(** C2, as the code has it: for a non-empty long URL and no custom
    identifier, in a reachable state and with the randomness source
    delivering when the buffer is empty, [Create] succeeds with the short
    URL made of the base URL (less one trailing '/', if it has one), a '/'
    and the identifier that [GenerateUniqueID] returns; and, unless the
    request carries an expiry that the clock has passed at that moment, a
    following [Resolve] of exactly that short URL returns the long URL. *)
Theorem CreateShortURL_then_GetLongURL (w : World)
    (req : CreateShortURLRequest) (md : Metadata) :
  reachable w ->
  LongURL req <> EmptyString -> CustomURL req = EmptyString ->
  (buffer w = [] -> randInt w (draws w) 1000 <> None) ->
  exists i wg resp w1,
    KGS.GenerateUniqueID w = (Ok i, wg) /\
    App.CreateShortURL req w = (Ok resp, w1) /\
    resp_ShortURL resp
    = (Strings.TrimSuffix (baseURL w) "/" ++ "/" ++ i)%string /\
    ((forall e, Expiry req = Some e -> e >= clock w1 (ticks w1)) ->
     fst (App.GetLongURL (mkGetLongURLRequest (resp_ShortURL resp) md) w1)
     = Ok (LongURL req)).
Proof.
  intros Hreach Hl Hc Hrand.
  destruct (GenerateUniqueID_runs w (reachable_buffer_ok w Hreach) Hrand)
    as (i & wg & Hgen & [Hvalid _] & _ & Hbase & _).
  destruct (CreateShortURL_generated_run w req i wg Hl Hc Hgen)
    as (w1 & Hrun & Hdata & Hclock & Hticks).
  eexists i, wg, _, w1. split; [exact Hgen|]. split; [exact Hrun|].
  cbn [resp_ShortURL]. rewrite Hbase in *. split; [reflexivity|].
  intros Hexp.
  pose proof (isValidBase62_no_slash i Hvalid) as Hslash.
  set (short := (Strings.TrimSuffix (baseURL w) "/" ++ "/" ++ i)%string) in *.
  assert (Hfound : data w1 !! App.extractIDFromShortURL short
                   = Some (mkShortURL i (LongURL req) short
                             (clock wg (ticks wg)) (Expiry req) true
                             (UserMetadata req))).
  { unfold short. rewrite (extractIDFromShortURL_full _ i Hslash).
    rewrite Hdata. apply lookup_insert_eq. }
  rewrite (GetLongURL_found w1 (mkGetLongURLRequest short md) _
             (append_slash_nonempty _ i) Hfound).
  cbn [isActive negb longURL]. unfold Domain.IsExpired. cbn [expiry].
  destruct (Expiry req) as [e|]; [|reflexivity].
  cbn. specialize (Hexp e eq_refl).
  destruct (Z.ltb_spec e (clock w1 (ticks w1))); [lia|reflexivity].
Qed.

(** ** The end-to-end scenarios on a concrete run *)

Example demo_empty_id_entity_constructed :
  fst (Domain.NewShortURL "" "https://example.com" "http://test.com/" None []
         demo_booted)
  = Ok demo_empty_id_entity.
Proof. reflexivity. Qed.

Lemma demo_custom_world_lookup :
  data demo_custom_world !! "my-custom-url" = Some demo_custom_entity.
Proof. vm_compute. reflexivity. Qed.

Lemma GetLongURL_spec_witness :
  req_ShortURL (mkGetLongURLRequest "http://test.com/my-custom-url" []) <> ""
  /\ fst (App.GetLongURL
            (mkGetLongURLRequest "http://test.com/my-custom-url" [])
            demo_custom_world)
     = Ok "https://example.com"%string.
Proof.
  assert (H : req_ShortURL
                (mkGetLongURLRequest "http://test.com/my-custom-url" [])
              <> "") by discriminate.
  split; [exact H|].
  exact (proj1 (proj2 (proj2 (GetLongURL_spec demo_custom_world _ H)
                         demo_custom_entity demo_custom_world_lookup))
           eq_refl eq_refl).
Defined.

Lemma CreateShortURL_custom_conflict_witness :
  CustomURL demo_custom_req <> "" /\ LongURL demo_custom_req <> "" /\
  App.CreateShortURL demo_custom_req demo_custom_world
  = (Err App.ErrCustomURLExists, demo_custom_world).
Proof.
  assert (Hc : CustomURL demo_custom_req <> "") by discriminate.
  assert (Hl : LongURL demo_custom_req <> "") by discriminate.
  split; [exact Hc|]. split; [exact Hl|].
  refine (proj2 (proj2 (CreateShortURL_custom_conflict demo_booted
                          demo_custom_req demo_custom_req Hc Hl eq_refl Hl)
                   (mkCreateShortURLResponse "my-custom-url")
                   demo_custom_world _)).
  vm_compute. reflexivity.
Defined.



Lemma CreateShortURL_then_GetLongURL_witness :
  exists i resp w1,
    App.CreateShortURL
      (mkCreateShortURLRequest "https://example.com" "" None []) demo_booted
    = (Ok resp, w1) /\
    resp_ShortURL resp = ("http://test.com" ++ "/" ++ i)%string /\
    fst (App.GetLongURL (mkGetLongURLRequest (resp_ShortURL resp) []) w1)
    = Ok "https://example.com"%string.
Proof.
  destruct (CreateShortURL_then_GetLongURL demo_booted
              (mkCreateShortURLRequest "https://example.com" "" None []) []
              demo_booted_reachable ltac:(discriminate) eq_refl
              ltac:(discriminate))
    as (i & wg & resp & w1 & _ & Hrun & Hshort & Hres).
  exists i, resp, w1. split; [exact Hrun|]. split; [exact Hshort|].
  apply Hres. discriminate.
Defined.

(** C2 as stated fails when the request carries an expiry already passed:
    [Create] succeeds and the following [Resolve] of the returned short URL
    is refused as expired. *)
Lemma CreateShortURL_expired_then_GetLongURL :
  ~ (forall w req md,
       reachable w -> LongURL req <> EmptyString ->
       CustomURL req = EmptyString ->
       exists resp w1,
         App.CreateShortURL req w = (Ok resp, w1) /\
         fst (App.GetLongURL (mkGetLongURLRequest (resp_ShortURL resp) md) w1)
         = Ok (LongURL req)).
Proof.
  intros H.
  destruct (H demo_booted demo_expired_req [] demo_booted_reachable
              ltac:(discriminate) eq_refl) as (resp & w1 & Hrun & Hres).
  vm_compute in Hrun. injection Hrun as <- <-.
  vm_compute in Hres. discriminate Hres.
Qed.

(** * Further properties *)

(** ** The decoder on arbitrary strings *)

Section DecoderFacts.

Import Base62.

Lemma isBase62Char_false_digit_of c :
  isBase62Char c = false -> digit_of c = None.
Proof.
  unfold digit_of, isBase62Char. cbv zeta.
  destruct ((48 <=? _) && (_ <=? 57)); [discriminate|].
  destruct ((97 <=? _) && (_ <=? 122)); [discriminate|].
  destruct ((65 <=? _) && (_ <=? 90)); [discriminate|reflexivity].
Qed.

Lemma rightmost_invalid_snoc s c :
  rightmost_invalid (s ++ String c EmptyString)
  = if isBase62Char c then rightmost_invalid s else Some c.
Proof.
  induction s as [|a s IH].
  - rewrite append_nil. cbn. destruct (isBase62Char c); reflexivity.
  - rewrite append_cons. cbn [rightmost_invalid]. rewrite IH.
    destruct (isBase62Char c); reflexivity.
Qed.

Lemma rightmost_invalid_valid s :
  rightmost_invalid s = None <-> isValidBase62 s = true.
Proof.
  induction s as [|c s IH]; cbn; [tauto|].
  destruct (rightmost_invalid s) as [x|].
  - split; [discriminate|]. intros H. apply andb_true_iff in H as [_ H].
    apply IH in H. discriminate.
  - destruct (isBase62Char c); cbn.
    + split; [intros _; now apply IH|reflexivity].
    + split; discriminate.
Qed.

(** Where the rightmost invalid byte sits. *)
Lemma rightmost_invalid_split s c :
  rightmost_invalid s = Some c ->
  exists pre suf, s = (pre ++ String c suf)%string
                  /\ isBase62Char c = false /\ isValidBase62 suf = true.
Proof.
  induction s as [|a s IH]; cbn; [discriminate|].
  destruct (rightmost_invalid s) as [x|] eqn:E.
  - intros H. injection H as ->. destruct (IH eq_refl) as (pre & suf & -> & Hc & Hs).
    exists (String a pre), suf. auto.
  - destruct (isBase62Char a) eqn:Ea; [discriminate|].
    intros H. injection H as <-. exists EmptyString, s. repeat split; auto.
    now apply rightmost_invalid_valid.
Qed.

(** The decoding loop on a prefix, whatever bytes it holds. *)
Lemma decode_loop_scan n : forall s1 s2 r p,
  String.length s1 = n ->
  decode_loop (s1 ++ s2) n (Int64.wrap r) (Int64.wrap p)
  = match rightmost_invalid s1 with
    | Some c => Err (InvalidCharacter c)
    | None => Ok (Int64.wrap (r + p * value_of s1))
    end.
Proof.
  induction n as [|n IH]; intros s1 s2 r p Hlen.
  - destruct s1; [|discriminate]. cbn. f_equal. f_equal. lia.
  - destruct (string_snoc n s1 Hlen) as (s' & c & -> & Hl).
    rewrite append_snoc_assoc, rightmost_invalid_snoc. cbn [decode_loop].
    rewrite <- Hl at 1. rewrite get_at_length.
    destruct (isBase62Char c) eqn:Hc.
    + rewrite (isBase62Char_digit_of c Hc).
      unfold Int64.add, Int64.mul.
      rewrite wrap_mul_r, wrap_add_l, wrap_add_r, wrap_mul_l.
      rewrite (IH s' (String c s2) _ _ Hl).
      destruct (rightmost_invalid s'); [reflexivity|].
      f_equal. f_equal. unfold value_of. rewrite horner_snoc. ring.
    + now rewrite (isBase62Char_false_digit_of c Hc).
Qed.

Lemma DecodeBase62_scan s :
  DecodeBase62 s
  = match rightmost_invalid s with
    | Some c => Err (InvalidCharacter c)
    | None => Ok (Int64.wrap (value_of s))
    end.
Proof.
  unfold DecodeBase62.
  pose proof (decode_loop_scan (String.length s) s EmptyString 0 1 eq_refl) as H.
  rewrite append_empty_r in H.
  change (Int64.wrap 0) with 0 in H. change (Int64.wrap 1) with 1 in H.
  rewrite H. destruct (rightmost_invalid s); [reflexivity|].
  f_equal. f_equal. lia.
Qed.

Lemma value_of_zeros k s : value_of (zeros k ++ s) = value_of s.
Proof.
  induction k as [|k IH]; [reflexivity|].
  cbn [zeros]. rewrite append_cons. unfold value_of in *. cbn [horner].
  exact IH.
Qed.

Lemma rightmost_invalid_zeros k s :
  rightmost_invalid (zeros k ++ s) = rightmost_invalid s.
Proof.
  induction k as [|k IH]; [reflexivity|].
  cbn [zeros]. rewrite append_cons. cbn [rightmost_invalid]. rewrite IH.
  destruct (rightmost_invalid s); reflexivity.
Qed.

Lemma pad_loop_zeros k s : pad_loop k s = (zeros k ++ s)%string.
Proof.
  revert s. induction k as [|k IH]; intros s; [reflexivity|].
  cbn [pad_loop]. rewrite IH. clear IH.
  induction k as [|k IH]; [reflexivity|].
  cbn [zeros]. rewrite !append_cons. f_equal. exact IH.
Qed.

Lemma zeros_length k : String.length (zeros k) = k.
Proof. induction k as [|k IH]; cbn; [reflexivity|now rewrite IH]. Qed.

Lemma append_length a b :
  String.length (a ++ b) = (String.length a + String.length b)%nat.
Proof.
  induction a as [|c a IH]; [reflexivity|].
  rewrite append_cons. cbn [String.length]. now rewrite IH.
Qed.

End DecoderFacts.

(** X1: on a string of alphabet characters [DecodeBase62] always succeeds,
    and returns the number the digits denote reduced modulo 2^64 to a signed
    64-bit integer: an overflow is not reported.  It is the number itself
    when that fits. *)
Theorem DecodeBase62_valid (s : string) :
  Base62.isValidBase62 s = true ->
  Base62.DecodeBase62 s = Ok (Int64.wrap (value_of s)) /\
  (Int64.in_range (value_of s) -> Base62.DecodeBase62 s = Ok (value_of s)).
Proof.
  intros Hs. rewrite DecodeBase62_scan.
  apply rightmost_invalid_valid in Hs. rewrite Hs.
  split; [reflexivity|]. intros Hr. now rewrite wrap_id.
Qed.

Lemma DecodeBase62_valid_witness :
  Base62.DecodeBase62 "ZZZZZZZZZZZ"
  = Ok (Int64.wrap (value_of "ZZZZZZZZZZZ")).
Proof. exact (proj1 (DecodeBase62_valid "ZZZZZZZZZZZ" eq_refl)). Defined.

Example DecodeBase62_overflow_sample :
  value_of "ZZZZZZZZZZZ" = 62 ^ 11 - 1 /\
  Base62.DecodeBase62 "ZZZZZZZZZZZ" = Ok (-3303671537291560961).
Proof. split; vm_compute; reflexivity. Qed.

(** X2: [DecodeBase62] fails exactly on the strings that hold a byte outside
    [[0-9a-zA-Z]]; the error then names the rightmost such byte (the scan
    runs from the right and stops there); and it never panics. *)
Theorem DecodeBase62_error (s : string) :
  ((exists err, Base62.DecodeBase62 s = Err err)
   <-> Base62.isValidBase62 s = false) /\
  (forall err, Base62.DecodeBase62 s = Err err ->
     exists pre c suf,
       err = InvalidCharacter c /\ s = (pre ++ String c suf)%string /\
       Base62.isBase62Char c = false /\ Base62.isValidBase62 suf = true) /\
  Base62.DecodeBase62 s <> Panic.
Proof.
  rewrite DecodeBase62_scan.
  destruct (rightmost_invalid s) as [c|] eqn:E.
  - destruct (rightmost_invalid_split s c E) as (pre & suf & Hs & Hc & Hsuf).
    split; [|split; [|discriminate]].
    + split; [|eauto]. intros _.
      destruct (Base62.isValidBase62 s) eqn:Hv; [|reflexivity].
      apply rightmost_invalid_valid in Hv. congruence.
    + intros err H. injection H as <-. exists pre, c, suf. auto.
  - apply rightmost_invalid_valid in E.
    split; [|split; [|discriminate]].
    + split; [intros [err H]; discriminate|congruence].
    + intros err H. discriminate.
Qed.

(** X3: padding does not change what a string decodes to, whatever the
    string and the length; so every identifier synthesised from a
    non-negative value decodes back to that value. *)
Theorem DecodeBase62_padToLength :
  (forall s n,
     Base62.DecodeBase62 (Base62.padToLength s n) = Base62.DecodeBase62 s) /\
  (forall v, 0 <= v <= Int64.max_int ->
     Base62.DecodeBase62 (Base62.padToLength (Base62.encodeBase62 v) 7)
     = Ok v).
Proof.
  assert (Hpad : forall s n,
    Base62.DecodeBase62 (Base62.padToLength s n) = Base62.DecodeBase62 s).
  { intros s n. unfold Base62.padToLength. cbv zeta.
    destruct (_ >=? _); [reflexivity|].
    rewrite pad_loop_zeros, !DecodeBase62_scan.
    now rewrite rightmost_invalid_zeros, value_of_zeros. }
  split; [exact Hpad|]. intros v Hv. rewrite Hpad, DecodeBase62_scan.
  pose proof (encodeBase62_valid v) as Hval.
  apply rightmost_invalid_valid in Hval. rewrite Hval.
  rewrite encodeBase62_value by lia. f_equal. apply wrap_id.
  unfold Int64.in_range, Int64.min_int, Int64.max_int in *. lia.
Qed.

Section EncoderFacts.

Import Base62.

Lemma encode_loop_head num result :
  0 < num ->
  exists c rest, encode_loop num result = String c rest /\ c <> "0"%char.
Proof.
  funelim (encode_loop num result); intros Hpos; [|lia].
  destruct (Z.eq_dec (Z.quot num 62) 0) as [Hq|Hq].
  - rewrite Hq. rewrite encode_loop_equation_1. cbn.
    eexists _, _. split; [reflexivity|].
    assert (Hrem : Z.rem num 62 = num).
    { pose proof (Z.quot_rem' num 62). lia. }
    rewrite Hrem. intros Hc.
    assert (Hb : 0 <= num < 62).
    { rewrite <- Hrem. apply rem62_bounds. lia. }
    destruct (base62_at_get num Hb) as [_ Hd]. rewrite Hc in Hd.
    cbv in Hd. injection Hd as Hd. lia.
  - match goal with IH : 0 < _ -> exists _ _, _ |- _ => apply IH end.
    assert (0 <= Z.quot num 62) by (apply Z.quot_pos; lia). lia.
Qed.

Lemma encodeBase62_negative num : num < 0 -> encodeBase62 num = EmptyString.
Proof.
  intros H. unfold encodeBase62. destruct (Z.eqb_spec num 0); [lia|].
  rewrite encode_loop_equation_1. destruct (Z_lt_dec 0 num); [lia|reflexivity].
Qed.

End EncoderFacts.

(** X4: the encoding is canonical.  Two non-negative integers with the
    same encoding are equal; the encoding of a positive integer does not
    start with '0'; a non-negative [int64] encodes to between 1 and 11
    characters of the alphabet; and a negative argument, which the loop
    never enters, encodes to the empty string. *)
Theorem encodeBase62_canonical :
  (forall a b, 0 <= a -> 0 <= b ->
     Base62.encodeBase62 a = Base62.encodeBase62 b -> a = b) /\
  (forall n, 0 < n ->
     exists c rest, Base62.encodeBase62 n = String c rest /\ c <> "0"%char) /\
  (forall n, 0 <= n <= Int64.max_int ->
     (1 <= String.length (Base62.encodeBase62 n) <= 11)%nat
     /\ Base62.isValidBase62 (Base62.encodeBase62 n) = true) /\
  (forall n, n < 0 -> Base62.encodeBase62 n = EmptyString).
Proof.
  split; [|split; [|split]].
  - intros a b Ha Hb Heq.
    rewrite <- (encodeBase62_value a Ha), <- (encodeBase62_value b Hb).
    now rewrite Heq.
  - intros n Hn. unfold Base62.encodeBase62.
    destruct (Z.eqb_spec n 0); [lia|]. now apply encode_loop_head.
  - intros n Hn. split; [split|apply encodeBase62_valid].
    + destruct (Z.eq_dec n 0) as [->|Hnz]; [cbn; lia|].
      unfold Base62.encodeBase62. destruct (Z.eqb_spec n 0); [lia|].
      destruct (encode_loop_head n EmptyString ltac:(lia)) as (c & rest & -> & _).
      cbn. lia.
    + apply encodeBase62_length; [|lia].
      unfold Int64.max_int in Hn. lia.
  - apply encodeBase62_negative.
Qed.

(** X5: [padToLength] puts [length - len(str)] characters '0' in front of
    [str], none when [str] is already that long or longer (or [length] is
    negative); the result has the larger of the two lengths, and padding
    it again changes nothing. *)
Theorem padToLength_zeros (str : string) (n : Z) :
  let len := Z.of_nat (String.length str) in
  Base62.padToLength str n = (zeros (Z.to_nat (n - len)) ++ str)%string /\
  Z.of_nat (String.length (Base62.padToLength str n)) = Z.max len n /\
  Base62.padToLength (Base62.padToLength str n) n = Base62.padToLength str n.
Proof.
  cbv zeta.
  assert (Hform : forall s,
    Base62.padToLength s n
    = (zeros (Z.to_nat (n - Z.of_nat (String.length s))) ++ s)%string).
  { intros s. unfold Base62.padToLength. cbv zeta.
    destruct (Z.geb_spec (Z.of_nat (String.length s)) n).
    - replace (Z.to_nat (n - Z.of_nat (String.length s))) with 0%nat by lia.
      reflexivity.
    - apply pad_loop_zeros. }
  assert (Hlen : Z.of_nat (String.length (Base62.padToLength str n))
                 = Z.max (Z.of_nat (String.length str)) n).
  { rewrite Hform, append_length, zeros_length. lia. }
  split; [apply Hform|]. split; [exact Hlen|].
  rewrite (Hform (Base62.padToLength str n)), Hlen.
  replace (Z.to_nat (n - Z.max (Z.of_nat (String.length str)) n)) with 0%nat
    by lia.
  reflexivity.
Qed.

(** ** The generator: batches, the buffer and its refill *)

Section BatchFacts.

Lemma generate_loop_buffer_kept n : forall ids, buffer_kept (KGS.generate_loop n ids).
Proof.
  induction n as [|n IH]; intros ids w; [reflexivity|].
  rewrite generate_loop_step.
  destruct (randInt w (draws w) 1000); [|reflexivity].
  now rewrite IH.
Qed.

Lemma generate_loop_length n : forall ids w ids' w',
  KGS.generate_loop n ids w = (Ok ids', w') ->
  List.length ids' = (List.length ids + n)%nat.
Proof.
  induction n as [|n IH]; intros ids w ids' w' Hrun.
  - cbn in Hrun. injection Hrun as <- _. lia.
  - rewrite generate_loop_step in Hrun.
    destruct (randInt w (draws w) 1000); [|discriminate].
    apply IH in Hrun. rewrite length_app in Hrun. cbn in Hrun. lia.
Qed.

(** A batch of [n] with a randomness source that delivers [n] times. *)
Lemma generate_loop_runs n : forall ids w,
  Int64.in_range (counter w) ->
  (forall j, (j < n)%nat -> randInt w (draws w + j) 1000 <> None) ->
  exists new w',
    KGS.generate_loop n ids w = (Ok (ids ++ new), w') /\
    List.length new = n /\ Forall wellformed_id new /\
    counter w' = Int64.wrap (counter w + Z.of_nat n) /\
    draws w' = (draws w + n)%nat /\ ticks w' = (ticks w + n)%nat /\
    buffer w' = buffer w /\ data w' = data w /\ events w' = events w.
Proof.
  induction n as [|n IH]; intros ids w Hrange Hrand.
  - exists [], w. cbn. rewrite app_nil_r, Z.add_0_r, wrap_id by assumption.
    repeat split; auto.
  - rewrite generate_loop_step.
    pose proof (Hrand 0%nat ltac:(lia)) as H0. rewrite Nat.add_0_r in H0.
    destruct (randInt w (draws w) 1000) as [r|]; [clear H0|congruence].
    set (w1 := set_counter _ _).
    destruct (IH (ids ++ [Base62.padToLength
                            (Base62.encodeBase62
                               (KGS.scramble (counter w) (clock w (ticks w)) r))
                            7]) w1) as (new & w' & Hrun & Hlen & Hwf & Hc & Hd & Ht & Hb & Hda & He).
    + apply wrap_in_range.
    + intros j Hj. cbn. replace (S (draws w + j)) with (draws w + S j)%nat by lia.
      apply Hrand. lia.
    + eexists (_ :: new), w'. rewrite Hrun, <- app_assoc. cbn [app].
      split; [reflexivity|]. split; [cbn; lia|].
      split; [constructor; [apply synthesised_id_wellformed|exact Hwf]|].
      cbn in Hc, Hd, Ht, Hb, Hda, He. unfold Int64.add in Hc.
      rewrite wrap_add_l in Hc. rewrite Hc, Hd, Ht.
      repeat split; auto; try lia. f_equal. lia.
Qed.

End BatchFacts.

(** X6: [GetMultipleIDs count] synthesises exactly [count] identifiers when
    the randomness source delivers [count] times: all well formed, the
    counter advanced by [count] (modulo 2^64), and the buffer, the store and
    the event log untouched; the buffer is not consulted even when it holds
    identifiers.  A count of 0 gives the empty list and changes nothing; a
    negative count panics (a slice of negative length) and changes
    nothing. *)
Theorem GetMultipleIDs_spec (w : World) (count : Z) :
  (count < 0 -> KGS.GetMultipleIDs count w = (Panic, w)) /\
  (count = 0 -> KGS.GetMultipleIDs count w = (Ok [], w)) /\
  (0 <= count -> Int64.in_range (counter w) ->
   (forall j, 0 <= j < count ->
      randInt w (draws w + Z.to_nat j) 1000 <> None) ->
   exists ids w',
     KGS.GetMultipleIDs count w = (Ok ids, w') /\
     Z.of_nat (List.length ids) = count /\
     Forall wellformed_id ids /\
     counter w' = Int64.wrap (counter w + count) /\
     buffer w' = buffer w /\ data w' = data w /\ events w' = events w).
Proof.
  unfold KGS.GetMultipleIDs, KGS.generateMultipleIDsInternal.
  split; [|split].
  - intros H. destruct (Z.ltb_spec count 0); [reflexivity|lia].
  - intros ->. reflexivity.
  - intros Hc Hrange Hrand. destruct (Z.ltb_spec count 0); [lia|].
    destruct (generate_loop_runs (Z.to_nat count) [] w Hrange)
      as (new & w' & Hrun & Hlen & Hwf & Hcnt & _ & _ & Hb & Hd & He).
    + intros j Hj. specialize (Hrand (Z.of_nat j) ltac:(lia)).
      now rewrite Nat2Z.id in Hrand.
    + exists new, w'. rewrite Hrun. cbn [app].
      split; [reflexivity|]. split; [lia|]. split; [exact Hwf|].
      rewrite Hcnt, Z2Nat.id by lia. auto.
Qed.

(** X7: the buffer is a queue.  As many calls of [GenerateUniqueID] as the
    buffer holds identifiers return exactly the buffered identifiers, in
    buffer order, and leave the buffer empty and everything else as it was:
    no clock reading, no random draw, no counter step. *)
Theorem GenerateUniqueID_drains_buffer (w : World) :
  call_n (List.length (buffer w)) KGS.GenerateUniqueID w
  = (Ok (buffer w), set_buffer [] w).
Proof.
  remember (buffer w) as b eqn:Hb. revert w Hb.
  induction b as [|i rest IH]; intros w Hb.
  - cbn. unfold ret. f_equal. destruct w; cbn in *. now subst.
  - cbn [List.length call_n]. unfold bind at 1.
    unfold KGS.GenerateUniqueID at 1, bind at 1, gets. rewrite <- Hb. cbn.
    unfold bind at 1. rewrite (IH (set_buffer rest w) eq_refl). reflexivity.
Qed.

Lemma RefillBuffer_run w :
  KGS.RefillBuffer w
  = if Z.of_nat (List.length (buffer w)) <? 100 then
      match KGS.generate_loop 1000 [] w with
      | (Ok ids, w') => (Ok tt, set_buffer (buffer w' ++ ids) w')
      | (Err e, w') => (Err (Errorf_w "failed to refill buffer" e), w')
      | (Panic, w') => (Panic, w')
      end
    else (Ok tt, w).
Proof.
  unfold KGS.RefillBuffer, bind, gets, KGS.wrap_err,
    KGS.generateMultipleIDsInternal.
  cbn [Z.ltb Z.compare]. change (Z.to_nat 1000) with 1000%nat.
  destruct (_ <? 100); [|reflexivity].
  destruct (KGS.generate_loop 1000 [] w) as [[ids| |] w']; reflexivity.
Qed.

Lemma RefillBuffer_runs w :
  Z.of_nat (List.length (buffer w)) < 100 ->
  Int64.in_range (counter w) ->
  (forall j, (j < 1000)%nat -> randInt w (draws w + j) 1000 <> None) ->
  exists ids w',
    KGS.RefillBuffer w = (Ok tt, w') /\
    buffer w' = buffer w ++ ids /\ List.length ids = 1000%nat /\
    Forall wellformed_id ids /\
    counter w' = Int64.wrap (counter w + 1000) /\
    data w' = data w /\ events w' = events w.
Proof.
  intros Hlow Hrange Hrand. rewrite RefillBuffer_run.
  destruct (Z.ltb_spec (Z.of_nat (List.length (buffer w))) 100); [|lia].
  destruct (generate_loop_runs 1000 [] w Hrange Hrand)
    as (new & w' & Hrun & Hlen & Hwf & Hcnt & _ & _ & Hb & Hd & He).
  rewrite Hrun. cbn [app]. eexists new, _. split; [reflexivity|].
  cbn. rewrite Hb. repeat split; auto.
Qed.

(** X8: [RefillBuffer] does nothing when the buffer holds 100 identifiers or
    more.  Below that mark, and with a randomness source that delivers the
    next 1000 draws, it appends exactly 1000 freshly synthesised, well-formed
    identifiers behind the ones already buffered and advances the counter by
    1000 (modulo 2^64), leaving the store and the event log as they were.
    And whenever it does not return normally, the buffer is as it was: a
    batch is appended whole or not at all. *)
Theorem RefillBuffer_spec (w : World) :
  (100 <= Z.of_nat (List.length (buffer w)) ->
   KGS.RefillBuffer w = (Ok tt, w)) /\
  (Z.of_nat (List.length (buffer w)) < 100 ->
   Int64.in_range (counter w) ->
   (forall j, (j < 1000)%nat -> randInt w (draws w + j) 1000 <> None) ->
   exists ids w',
     KGS.RefillBuffer w = (Ok tt, w') /\
     buffer w' = buffer w ++ ids /\ List.length ids = 1000%nat /\
     Forall wellformed_id ids /\
     counter w' = Int64.wrap (counter w + 1000) /\
     data w' = data w /\ events w' = events w) /\
  (fst (KGS.RefillBuffer w) <> Ok tt ->
   buffer (snd (KGS.RefillBuffer w)) = buffer w).
Proof.
  rewrite RefillBuffer_run. split; [|split].
  - intros H. destruct (Z.ltb_spec (Z.of_nat (List.length (buffer w))) 100);
      [lia|reflexivity].
  - rewrite <- RefillBuffer_run. apply RefillBuffer_runs.
  - destruct (Z.ltb_spec (Z.of_nat (List.length (buffer w))) 100);
      [|intros Hn; now contradiction Hn].
    pose proof (generate_loop_buffer_kept 1000 [] w) as Hk.
    destruct (KGS.generate_loop 1000 [] w) as [[ids| |] w'];
      cbn in *; intros Hne; [now contradiction Hne|exact Hk|exact Hk].
Qed.

(** X9: a refill that returned normally leaves at least 100 identifiers in
    the buffer, so a second [RefillBuffer] right after it changes nothing:
    refilling twice is refilling once. *)
Theorem RefillBuffer_twice (w : World) :
  fst (KGS.RefillBuffer w) = Ok tt ->
  100 <= Z.of_nat (List.length (buffer (snd (KGS.RefillBuffer w)))) /\
  KGS.RefillBuffer (snd (KGS.RefillBuffer w))
  = (Ok tt, snd (KGS.RefillBuffer w)).
Proof.
  intros Hok.
  assert (Hlen : 100 <= Z.of_nat
                   (List.length (buffer (snd (KGS.RefillBuffer w))))).
  { rewrite RefillBuffer_run in *.
    destruct (Z.ltb_spec (Z.of_nat (List.length (buffer w))) 100);
      [|cbn; lia].
    destruct (KGS.generate_loop 1000 [] w) as [[ids| |] w'] eqn:Hrun;
      try discriminate.
    apply generate_loop_length in Hrun. cbn in *.
    rewrite length_app, Hrun. lia. }
  split; [exact Hlen|].
  rewrite (RefillBuffer_run (snd (KGS.RefillBuffer w))).
  destruct (Z.ltb_spec
              (Z.of_nat (List.length (buffer (snd (KGS.RefillBuffer w)))))
              100); [lia|reflexivity].
Qed.

Lemma RefillBuffer_twice_witness :
  fst (KGS.RefillBuffer demo_booted) = Ok tt /\
  KGS.RefillBuffer (snd (KGS.RefillBuffer demo_booted))
  = (Ok tt, snd (KGS.RefillBuffer demo_booted)).
Proof.
  assert (Hok : fst (KGS.RefillBuffer demo_booted) = Ok tt).
  { destruct (RefillBuffer_runs demo_booted) as (ids & w' & Hrun & _).
    - cbn. lia.
    - vm_compute. split; discriminate.
    - intros j _. discriminate.
    - now rewrite Hrun. }
  split; [exact Hok|exact (proj2 (RefillBuffer_twice demo_booted Hok))].
Defined.

(** ** What a call leaves alone *)

Lemma keeps_bind {X A B} (f : World -> X) (m : M A) (k : A -> M B) :
  keeps f m -> (forall a, keeps f (k a)) -> keeps f (bind m k).
Proof.
  intros Hm Hk w. unfold bind. specialize (Hm w).
  destruct (m w) as [[a| |] w']; cbn in *; try exact Hm.
  now rewrite Hk.
Qed.

Lemma keeps_wrap_err {X A} (f : World -> X) ctx (m : M A) :
  keeps f m -> keeps f (KGS.wrap_err ctx m).
Proof.
  intros Hm w. unfold KGS.wrap_err. specialize (Hm w).
  destruct (m w) as [[a| |] w']; exact Hm.
Qed.

Ltac keeps_tac :=
  repeat first
    [ solve [eauto]
    | match goal with
      | |- keeps _ (if ?b then _ else _) => destruct b
      | |- keeps _ (match ?x with _ => _ end) => destruct x
      | |- keeps _ (bind _ _) => apply keeps_bind; [|intros ?]
      | |- keeps _ (KGS.wrap_err _ _) => apply keeps_wrap_err
      end
    | (intros ?; reflexivity) ].

Section KeptFacts.

Lemma generate_loop_keeps_data n : forall ids, keeps data (KGS.generate_loop n ids).
Proof.
  induction n as [|n IH]; intros ids w; [reflexivity|].
  rewrite generate_loop_step.
  destruct (randInt w (draws w) 1000); [|reflexivity]. now rewrite IH.
Qed.

Lemma generate_loop_keeps_events n :
  forall ids, keeps events (KGS.generate_loop n ids).
Proof.
  induction n as [|n IH]; intros ids w; [reflexivity|].
  rewrite generate_loop_step.
  destruct (randInt w (draws w) 1000); [|reflexivity]. now rewrite IH.
Qed.

Lemma generate_loop_keeps_baseURL n :
  forall ids, keeps baseURL (KGS.generate_loop n ids).
Proof.
  induction n as [|n IH]; intros ids w; [reflexivity|].
  rewrite generate_loop_step.
  destruct (randInt w (draws w) 1000); [|reflexivity]. now rewrite IH.
Qed.

Lemma GenerateUniqueID_keeps_data : keeps data KGS.GenerateUniqueID.
Proof.
  unfold KGS.GenerateUniqueID, KGS.generateMultipleIDsInternal.
  pose proof generate_loop_keeps_data. keeps_tac.
Qed.

Lemma GenerateUniqueID_keeps_events : keeps events KGS.GenerateUniqueID.
Proof.
  unfold KGS.GenerateUniqueID, KGS.generateMultipleIDsInternal.
  pose proof generate_loop_keeps_events. keeps_tac.
Qed.

Lemma GenerateUniqueID_keeps_baseURL : keeps baseURL KGS.GenerateUniqueID.
Proof.
  unfold KGS.GenerateUniqueID, KGS.generateMultipleIDsInternal.
  pose proof generate_loop_keeps_baseURL. keeps_tac.
Qed.

Lemma IsExpired_keeps {X} (f : World -> X) ent :
  (forall n w, f (set_ticks n w) = f w) -> keeps f (Domain.IsExpired ent).
Proof.
  intros Hf. unfold Domain.IsExpired.
  destruct (expiry ent); [|intros w; reflexivity].
  intros w. cbn. apply Hf.
Qed.

Lemma GetLongURL_keeps_data req : keeps data (App.GetLongURL req).
Proof.
  unfold App.GetLongURL, Repo.FindByID, Analytics.SendEvent.
  pose proof (fun e => IsExpired_keeps data e (fun _ _ => eq_refl)).
  keeps_tac.
Qed.

Lemma GetLongURL_keeps_counter req : keeps counter (App.GetLongURL req).
Proof.
  unfold App.GetLongURL, Repo.FindByID, Analytics.SendEvent.
  pose proof (fun e => IsExpired_keeps counter e (fun _ _ => eq_refl)).
  keeps_tac.
Qed.

Lemma GetLongURL_keeps_draws req : keeps draws (App.GetLongURL req).
Proof.
  unfold App.GetLongURL, Repo.FindByID, Analytics.SendEvent.
  pose proof (fun e => IsExpired_keeps draws e (fun _ _ => eq_refl)).
  keeps_tac.
Qed.

Lemma world_eta w :
  mkWorld (clock w) (ticks w) (randInt w) (draws w) (counter w) (buffer w)
          (data w) (events w) (baseURL w) = w.
Proof. now destruct w. Qed.

End KeptFacts.

(** ** The repository: save, find, delete, list *)

(** X10: [Save] never fails and upserts by the entity's own id.  Right
    after it [FindByID] of that id returns the saved entity and every other
    id finds what it found before; the store grows by one entry when the id
    was free and keeps its size when it was taken; saving again under the
    same id leaves only the later entity.  [FindByID] itself never fails
    and never changes anything: an absent id is the nil result. *)
Theorem Save_FindByID (w : World) (ent ent2 : ShortURL) (k : string) :
  let w' := snd (Repo.Save ent w) in
  fst (Repo.Save ent w) = Ok tt /\
  Repo.FindByID (id ent) w' = (Ok (Some ent), w') /\
  (k <> id ent -> fst (Repo.FindByID k w') = fst (Repo.FindByID k w)) /\
  size (data w') = match data w !! id ent with
                   | Some _ => size (data w)
                   | None => S (size (data w))
                   end /\
  (id ent2 = id ent ->
   data (snd (Repo.Save ent2 w')) = data (snd (Repo.Save ent2 w))) /\
  Repo.FindByID k w = (Ok (data w !! k), w).
Proof.
  cbv zeta. unfold Repo.Save, Repo.FindByID, modify, gets. cbn.
  repeat split.
  - now rewrite lookup_insert_eq.
  - intros Hk. now rewrite lookup_insert_ne.
  - destruct (data w !! id ent) eqn:E.
    + now apply map_size_insert_Some.
    + now apply map_size_insert_None.
  - intros ->. apply insert_insert_eq.
Qed.

(** X11: deleting an entity right after saving it under an id that was
    free gives back the state from before the save. *)
Theorem Save_then_Delete (w : World) (ent : ShortURL) :
  data w !! id ent = None ->
  Repo.Delete (id ent) (snd (Repo.Save ent w)) = (Ok tt, w).
Proof.
  intros Hfree. unfold Repo.Delete, Repo.Save, bind, gets, modify. cbn.
  rewrite lookup_insert_eq. cbn. f_equal.
  unfold set_data. cbn. rewrite delete_insert_id by exact Hfree.
  apply world_eta.
Qed.

Lemma Save_then_Delete_witness :
  Repo.Delete (id demo_custom_entity)
    (snd (Repo.Save demo_custom_entity demo_booted))
  = (Ok tt, demo_booted).
Proof. exact (Save_then_Delete demo_booted demo_custom_entity eq_refl). Defined.

(** X12: after [Delete] of an id, however it ended, [FindByID] finds
    nothing under that id and a second [Delete] of it returns the not-found
    error and changes nothing. *)
Theorem Delete_then_absent (w : World) (k : string) :
  let w' := snd (Repo.Delete k w) in
  Repo.FindByID k w' = (Ok None, w') /\
  Repo.Delete k w' = (Err Repo.ErrNotFound, w').
Proof.
  cbv zeta.
  assert (Hgone : data (snd (Repo.Delete k w)) !! k = None).
  { unfold Repo.Delete, bind, gets, fail, modify. cbn.
    destruct (data w !! k) eqn:E; cbn; [apply lookup_delete_eq|exact E]. }
  split.
  - unfold Repo.FindByID, gets. now rewrite Hgone.
  - unfold Repo.Delete at 1, bind, gets, fail. now rewrite Hgone.
Qed.

Section ListingFacts.

Lemma enumerates_Permutation order w :
  enumerates order w -> order ≡ₚ (map_to_list (data w)).*1.
Proof.
  intros [Hnd Hin]. apply NoDup_Permutation; [exact Hnd| |].
  - apply NoDup_fst_map_to_list.
  - intros k. rewrite Hin. rewrite list_elem_of_fmap. split.
    + intros [ent Hent]. exists (k, ent). split; [reflexivity|].
      now apply elem_of_map_to_list.
    + intros [[k' ent] [-> Hent]]. apply elem_of_map_to_list in Hent.
      cbn. eauto.
Qed.

Lemma omap_lookup_length (m : gmap string ShortURL) (order : list string) :
  (forall k, k ∈ order -> is_Some (m !! k)) ->
  List.length (omap (fun k => m !! k) order) = List.length order.
Proof.
  induction order as [|k order IH]; intros Hin; [reflexivity|].
  cbn. destruct (Hin k ltac:(left)) as [ent ->]. cbn. f_equal.
  apply IH. intros k' Hk'. apply Hin. now right.
Qed.

End ListingFacts.

(** X13: whatever order the runtime enumerates the map in, [FindAll]
    returns each stored entity once, as many entities as the store has
    entries, and [GetAllShortURLs] returns their responses field by field in
    the same order; both leave the state untouched (no event, no clock
    reading), and on the empty store they return the empty list. *)
Theorem GetAllShortURLs_spec (w : World) (order : list string) :
  enumerates order w ->
  exists ents,
    FindAll order w = (Ok ents, w) /\
    GetAllShortURLs order w = (Ok (map toResponse ents), w) /\
    List.length ents = size (data w) /\
    (forall ent, ent ∈ ents <-> exists k, data w !! k = Some ent) /\
    (data w = ∅ -> ents = []).
Proof.
  intros Henum. pose proof Henum as [Hnd Hin].
  exists (omap (fun k => data w !! k) order).
  split; [reflexivity|]. split; [reflexivity|]. split; [|split].
  - rewrite omap_lookup_length by (intros k Hk; now apply Hin).
    rewrite (enumerates_Permutation order w Henum).
    rewrite length_fmap. apply length_map_to_list.
  - intros ent. rewrite list_elem_of_omap. split.
    + intros (k & _ & Hk). eauto.
    + intros (k & Hk). exists k. split; [apply Hin; eauto|exact Hk].
  - intros Hempty. destruct order as [|k order]; [reflexivity|].
    destruct (proj1 (Hin k) ltac:(left)) as [ent Hent].
    rewrite Hempty, lookup_empty in Hent. discriminate.
Qed.

Lemma demo_custom_world_data :
  data demo_custom_world = <["my-custom-url"%string := demo_custom_entity]> ∅.
Proof. vm_compute. reflexivity. Qed.

Lemma GetAllShortURLs_spec_witness :
  enumerates ["my-custom-url"%string] demo_custom_world /\
  GetAllShortURLs ["my-custom-url"%string] demo_custom_world
  = (Ok [toResponse demo_custom_entity], demo_custom_world).
Proof.
  assert (H : enumerates ["my-custom-url"%string] demo_custom_world).
  { split; [repeat constructor; intros Hin; inversion Hin|].
    intros k. rewrite demo_custom_world_data, list_elem_of_singleton.
    split.
    - intros ->. rewrite lookup_insert_eq. eauto.
    - intros [ent Hent]. destruct (decide (k = "my-custom-url"%string)); [assumption|].
      rewrite lookup_insert_ne, lookup_empty in Hent by congruence.
      discriminate. }
  split; [exact H|].
  destruct (GetAllShortURLs_spec demo_custom_world _ H)
    as (ents & Hfind & Hall & _).
  rewrite Hall. f_equal. f_equal.
  unfold FindAll, gets in Hfind. cbn [omap list_omap] in Hfind.
  rewrite demo_custom_world_lookup in Hfind. injection Hfind as <-.
  reflexivity.
Defined.

(** ** The service: what each call does to the state *)

Section CreateFacts.

Lemma CreateShortURL_empty w req :
  LongURL req = EmptyString ->
  App.CreateShortURL req w = (Err App.ErrLongURLRequired, w).
Proof. intros H. unfold App.CreateShortURL. now rewrite H. Qed.

Lemma CreateShortURL_custom_run w req :
  CustomURL req <> EmptyString -> LongURL req <> EmptyString ->
  data w !! CustomURL req = None ->
  exists w1,
    App.CreateShortURL req w
    = (Ok (mkCreateShortURLResponse (CustomURL req)), w1) /\
    created w w1
      (mkShortURL (CustomURL req) (LongURL req) (CustomURL req)
         (clock w (ticks w)) (Expiry req) true (UserMetadata req))
      (clock w (S (ticks w))).
Proof.
  intros Hc Hl Hfree. unfold App.CreateShortURL.
  rewrite (eqb_empty_false _ Hl), (eqb_empty_false _ Hc). cbn [negb].
  unfold bind at 1. unfold bind at 1. unfold Repo.FindByID, gets.
  rewrite Hfree. rewrite (NewCustomShortURL_ok _ _ _ _ _ Hl Hc).
  eexists. split; [reflexivity|]. cbn. repeat split.
Qed.

Lemma CreateShortURL_generated_effects w req i wg :
  LongURL req <> EmptyString -> CustomURL req = EmptyString ->
  KGS.GenerateUniqueID w = (Ok i, wg) ->
  let short := (Strings.TrimSuffix (baseURL wg) "/" ++ "/" ++ i)%string in
  exists w1,
    App.CreateShortURL req w = (Ok (mkCreateShortURLResponse short), w1) /\
    created wg w1
      (mkShortURL i (LongURL req) short (clock wg (ticks wg)) (Expiry req)
         true (UserMetadata req))
      (clock wg (S (ticks wg))).
Proof.
  intros Hl Hc Hgen. cbv zeta. unfold App.CreateShortURL.
  rewrite (eqb_empty_false _ Hl), Hc. cbn [String.eqb negb].
  unfold bind at 1. unfold bind at 1. unfold KGS.wrap_err. rewrite Hgen.
  unfold bind at 1. unfold App.buildShortURL, bind at 1, gets, ret.
  rewrite NewShortURL_ok by (auto using append_slash_nonempty).
  cbn. eexists. split; [reflexivity|]. cbn. repeat split.
Qed.

Lemma CreateShortURL_generation_stops w req wg :
  LongURL req <> EmptyString -> CustomURL req = EmptyString ->
  KGS.GenerateUniqueID w = (Panic, wg) ->
  App.CreateShortURL req w = (Panic, wg).
Proof.
  intros Hl Hc Hgen. unfold App.CreateShortURL.
  rewrite (eqb_empty_false _ Hl), Hc. cbn [String.eqb negb].
  unfold bind at 1. unfold bind at 1. unfold KGS.wrap_err. now rewrite Hgen.
Qed.

(** The five ways a [Create] can go. *)
Lemma CreateShortURL_cases w req :
  (LongURL req = EmptyString /\
   App.CreateShortURL req w = (Err App.ErrLongURLRequired, w)) \/
  (LongURL req <> EmptyString /\ CustomURL req <> EmptyString /\
   is_Some (data w !! CustomURL req) /\
   App.CreateShortURL req w = (Err App.ErrCustomURLExists, w)) \/
  (LongURL req <> EmptyString /\ CustomURL req <> EmptyString /\
   exists ent t w1,
     App.CreateShortURL req w
     = (Ok (mkCreateShortURLResponse (shortURL ent)), w1) /\
     created w w1 ent t /\ id ent = CustomURL req) \/
  (LongURL req <> EmptyString /\ CustomURL req = EmptyString /\
   exists i wg ent t w1,
     KGS.GenerateUniqueID w = (Ok i, wg) /\
     App.CreateShortURL req w
     = (Ok (mkCreateShortURLResponse (shortURL ent)), w1) /\
     created wg w1 ent t /\ id ent = i) \/
  (LongURL req <> EmptyString /\ CustomURL req = EmptyString /\
   exists wg, KGS.GenerateUniqueID w = (Panic, wg) /\
              App.CreateShortURL req w = (Panic, wg)).
Proof.
  destruct (String.eqb_spec (LongURL req) "") as [Hl|Hl].
  { left. split; [exact Hl|now apply CreateShortURL_empty]. }
  right. destruct (String.eqb_spec (CustomURL req) "") as [Hc|Hc].
  - right. right.
    destruct (KGS.GenerateUniqueID w) as [[i|err|] wg] eqn:Hgen.
    + left. split; [exact Hl|]. split; [exact Hc|].
      destruct (CreateShortURL_generated_effects w req i wg Hl Hc Hgen)
        as (w1 & Hrun & Heff).
      eexists i, wg, _, _, w1. split; [reflexivity|].
      split; [|split; [exact Heff|reflexivity]]. exact Hrun.
    + pose proof (GenerateUniqueID_no_err w) as Hne.
      rewrite Hgen in Hne. discriminate.
    + right. split; [exact Hl|]. split; [exact Hc|]. exists wg.
      split; [reflexivity|now apply CreateShortURL_generation_stops].
  - destruct (data w !! CustomURL req) as [old|] eqn:E.
    + left. split; [exact Hl|]. split; [exact Hc|]. split; [eauto|].
      apply CreateShortURL_custom_taken; eauto.
    + right. left. split; [exact Hl|]. split; [exact Hc|].
      destruct (CreateShortURL_custom_run w req Hc Hl E) as (w1 & Hrun & Heff).
      eexists _, _, w1. split; [|split; [exact Heff|reflexivity]]. exact Hrun.
Qed.

End CreateFacts.

Section ResolveDeactivateFacts.

(** [GetLongURL], case by case. *)
Lemma GetLongURL_run w req :
  App.GetLongURL req w
  = if String.eqb (req_ShortURL req) "" then (Err App.ErrShortURLRequired, w)
    else
      match data w !! App.extractIDFromShortURL (req_ShortURL req) with
      | None => (Err App.ErrNotFound, w)
      | Some ent =>
          if negb (isActive ent) then (Err App.ErrNotActiveOrExpired, w)
          else
            let accessed t w0 :=
              (Ok (longURL ent),
               set_events
                 (events w ++ [mkAnalyticsEvent "url_accessed" (shortURL ent)
                                 (longURL ent) (req_UserMetadata req) t])
                 (set_ticks (S (ticks w0)) w0)) in
            match expiry ent with
            | None => accessed (clock w (ticks w)) w
            | Some e =>
                if e <? clock w (ticks w)
                then (Err App.ErrNotActiveOrExpired,
                      set_ticks (S (ticks w)) w)
                else accessed (clock w (S (ticks w)))
                              (set_ticks (S (ticks w)) w)
            end
      end.
Proof.
  unfold App.GetLongURL. destruct (String.eqb _ ""); [reflexivity|].
  unfold bind at 1. unfold Repo.FindByID, gets.
  destruct (data w !! _) as [ent|]; [|reflexivity].
  destruct (isActive ent); cbn [negb]; [|reflexivity].
  unfold Domain.IsExpired. destruct (expiry ent) as [e|]; cbn.
  - destruct (e <? clock w (ticks w)); reflexivity.
  - reflexivity.
Qed.

(** [DeactivateShortURL], case by case. *)
Lemma DeactivateShortURL_run w k :
  App.DeactivateShortURL k w
  = if String.eqb k "" then (Err App.ErrIDRequired, w)
    else
      match data w !! k with
      | None => (Err App.ErrNotFound, w)
      | Some ent =>
          (Ok tt,
           set_events
             (events w ++ [mkAnalyticsEvent "url_deactivated" (shortURL ent)
                             (longURL ent) (userMetadata ent)
                             (clock w (ticks w))])
             (set_ticks (S (ticks w))
                (set_data (<[id ent := Domain.Deactivate ent]> (data w)) w)))
      end.
Proof.
  unfold App.DeactivateShortURL. destruct (String.eqb k ""); [reflexivity|].
  unfold bind at 1. unfold Repo.FindByID, gets.
  destruct (data w !! k) as [ent|]; reflexivity.
Qed.

Lemma keyed_by_id_insert (m : gmap string ShortURL) ent :
  (forall k e, m !! k = Some e -> id e = k) ->
  forall k e, <[id ent := ent]> m !! k = Some e -> id e = k.
Proof.
  intros Hm k e. destruct (decide (id ent = k)) as [<-|Hne].
  - rewrite lookup_insert_eq. now intros [= <-].
  - rewrite lookup_insert_ne by exact Hne. apply Hm.
Qed.

Lemma keyed_by_id_delete (m : gmap string ShortURL) k0 :
  (forall k e, m !! k = Some e -> id e = k) ->
  forall k e, delete k0 m !! k = Some e -> id e = k.
Proof.
  intros Hm k e. destruct (decide (k0 = k)) as [<-|Hne].
  - now rewrite lookup_delete_eq.
  - rewrite lookup_delete_ne by exact Hne. apply Hm.
Qed.

(** What an operation can do to the store: nothing, one upsert of an
    entity under its own id, or one removal. *)
Lemma run_store_step o w :
  data (run o w) = data w \/
  (exists ent, data (run o w) = <[id ent := ent]> (data w)) \/
  (exists k, data (run o w) = delete k (data w)).
Proof.
  destruct o; cbn [run].
  - left. apply GenerateUniqueID_keeps_data.
  - left. unfold KGS.GetMultipleIDs, KGS.generateMultipleIDsInternal.
    destruct (count <? 0); [reflexivity|apply generate_loop_keeps_data].
  - left. rewrite RefillBuffer_run. destruct (_ <? 100); [|reflexivity].
    pose proof (generate_loop_keeps_data 1000 [] w) as Hk.
    destruct (KGS.generate_loop 1000 [] w) as [[ids| |] w']; exact Hk.
  - destruct (CreateShortURL_cases w req)
      as [[_ ->]|[(_ & _ & _ & ->)|[(_ & _ & ent & t & w1 & -> & Hc & _)
         |[(_ & _ & i & wg & ent & t & w1 & Hgen & -> & Hc & _)
          |(_ & _ & wg & Hgen & ->)]]]]; cbn.
    + now left.
    + now left.
    + right. left. exists ent. apply Hc.
    + right. left. exists ent. destruct Hc as [-> _].
      pose proof (GenerateUniqueID_keeps_data w) as Hk.
      rewrite Hgen in Hk. cbn in Hk. now rewrite Hk.
    + left. pose proof (GenerateUniqueID_keeps_data w) as Hk.
      now rewrite Hgen in Hk.
  - left. apply GetLongURL_keeps_data.
  - rewrite DeactivateShortURL_run. destruct (String.eqb k ""); [now left|].
    destruct (data w !! k) as [ent|]; [|now left].
    right. left. exists (Domain.Deactivate ent). reflexivity.
  - right. left. exists ent. reflexivity.
  - unfold Repo.Delete, bind, gets, fail, modify.
    destruct (data w !! k); cbn; [right; right; eauto|now left].
Qed.

End ResolveDeactivateFacts.

(** X14: in every state the service can reach, each entity of the store
    sits under its own identifier: the key it is found by is the id it
    reports. *)
Theorem reachable_keyed_by_id (w : World) :
  reachable w -> forall k ent, data w !! k = Some ent -> id ent = k.
Proof.
  induction 1 as [w0 w Hboot|o w Hreach IH].
  - unfold boot, KGS.NewBase62KeyGenerationService, bind, rand_Int,
      big_Int64 in Hboot. cbn in Hboot.
    destruct (randInt w0 (draws w0) 1000000); cbn in Hboot; [|discriminate].
    injection Hboot as <-. cbn. intros k ent. now rewrite lookup_empty.
  - destruct (run_store_step o w) as [->|[[ent ->]|[k0 ->]]].
    + exact IH.
    + now apply keyed_by_id_insert.
    + now apply keyed_by_id_delete.
Qed.

Lemma reachable_keyed_by_id_witness :
  id demo_custom_entity = "my-custom-url"%string.
Proof.
  exact (reachable_keyed_by_id demo_custom_world
           (reachable_run (OpCreateShortURL demo_custom_req) demo_booted
              demo_booted_reachable)
           "my-custom-url"%string demo_custom_entity
           demo_custom_world_lookup).
Defined.

(** X15: the errors of the service and what a failed call leaves behind.
    [Create] returns only the long-URL-required error (for an empty long
    URL) and the custom-URL-exists error (for a taken custom identifier),
    [Deactivate] only the id-required and the not-found error, and both
    leave the whole state as it was.  [Resolve] returns only the
    short-URL-required, the not-found and the not-active-or-expired error,
    and then neither the store, the event log nor the generator has
    changed. *)
Theorem service_errors (w : World) :
  (forall req err, fst (App.CreateShortURL req w) = Err err ->
     snd (App.CreateShortURL req w) = w /\
     (err = App.ErrLongURLRequired /\ LongURL req = EmptyString \/
      err = App.ErrCustomURLExists /\ LongURL req <> EmptyString /\
      is_Some (data w !! CustomURL req))) /\
  (forall k err, fst (App.DeactivateShortURL k w) = Err err ->
     snd (App.DeactivateShortURL k w) = w /\
     (err = App.ErrIDRequired /\ k = EmptyString \/
      err = App.ErrNotFound /\ data w !! k = None)) /\
  (forall req err, fst (App.GetLongURL req w) = Err err ->
     (err = App.ErrShortURLRequired \/ err = App.ErrNotFound \/
      err = App.ErrNotActiveOrExpired) /\
     data (snd (App.GetLongURL req w)) = data w /\
     events (snd (App.GetLongURL req w)) = events w /\
     counter (snd (App.GetLongURL req w)) = counter w /\
     buffer (snd (App.GetLongURL req w)) = buffer w).
Proof.
  split; [|split].
  - intros req err.
    destruct (CreateShortURL_cases w req)
      as [[Hl ->]|[(Hl & _ & Htaken & ->)|[(_ & _ & ent & t & w1 & -> & _)
         |[(_ & _ & i & wg & ent & t & w1 & _ & -> & _)
          |(_ & _ & wg & _ & ->)]]]]; cbn; intros H; try discriminate;
      injection H as <-; auto.
  - intros k err. rewrite DeactivateShortURL_run.
    destruct (String.eqb_spec k ""); cbn.
    + intros [= <-]. auto.
    + destruct (data w !! k) eqn:E; cbn; intros H; [discriminate|].
      injection H as <-. auto.
  - intros req err. rewrite GetLongURL_run.
    destruct (String.eqb (req_ShortURL req) ""); cbn.
    { intros [= <-]. auto. }
    destruct (data w !! _) as [ent|]; cbn; [|intros [= <-]; auto 6].
    destruct (isActive ent); cbn; [|intros [= <-]; auto 6].
    destruct (expiry ent) as [e|]; cbn; [|discriminate].
    destruct (e <? clock w (ticks w)); cbn; [|discriminate].
    intros [= <-]. auto 6.
Qed.

(** X16: a [Create] that returns normally has stored exactly one entity,
    under its own id, active and with the request's long URL, expiry and
    metadata, and has logged exactly one [url_created] event carrying the
    short and the long URL; with a custom identifier the short URL and the
    id are that identifier and the generator is not touched (no counter
    step, no buffered identifier used, no random draw). *)
Theorem CreateShortURL_effects (w : World) (req : CreateShortURLRequest)
    (resp : CreateShortURLResponse) (w1 : World) :
  App.CreateShortURL req w = (Ok resp, w1) ->
  exists ent t,
    data w1 = <[id ent := ent]> (data w) /\
    events w1 = events w ++ [mkAnalyticsEvent "url_created"
                               (resp_ShortURL resp) (LongURL req)
                               (UserMetadata req) t] /\
    shortURL ent = resp_ShortURL resp /\ longURL ent = LongURL req /\
    expiry ent = Expiry req /\ userMetadata ent = UserMetadata req /\
    isActive ent = true /\
    (CustomURL req <> EmptyString ->
     resp_ShortURL resp = CustomURL req /\ id ent = CustomURL req /\
     counter w1 = counter w /\ buffer w1 = buffer w /\ draws w1 = draws w).
Proof.
  intros Hrun.
  destruct (String.eqb_spec (LongURL req) "") as [Hl|Hl].
  { rewrite CreateShortURL_empty in Hrun by exact Hl. discriminate. }
  destruct (String.eqb_spec (CustomURL req) "") as [Hc|Hc].
  - destruct (KGS.GenerateUniqueID w) as [[i|err|] wg] eqn:Hgen.
    + destruct (CreateShortURL_generated_effects w req i wg Hl Hc Hgen)
        as (w2 & Hrun2 & Hd & He & _). cbv zeta in *.
      rewrite Hrun2 in Hrun. injection Hrun as <- <-.
      pose proof (GenerateUniqueID_keeps_data w) as Hkd.
      pose proof (GenerateUniqueID_keeps_events w) as Hke.
      rewrite Hgen in Hkd, Hke. cbn in Hkd, Hke.
      eexists _, _. rewrite <- Hkd, <- Hke. split; [exact Hd|].
      split; [exact He|]. cbn. repeat split. all: congruence.
    + pose proof (GenerateUniqueID_no_err w) as Hne.
      rewrite Hgen in Hne. discriminate.
    + rewrite (CreateShortURL_generation_stops w req wg Hl Hc Hgen) in Hrun.
      discriminate.
  - destruct (data w !! CustomURL req) as [old|] eqn:E.
    + rewrite CreateShortURL_custom_taken in Hrun by eauto. discriminate.
    + destruct (CreateShortURL_custom_run w req Hc Hl E)
        as (w2 & Hrun2 & Hd & He & Hcn & Hb & Hdr & _).
      rewrite Hrun2 in Hrun. injection Hrun as <- <-.
      eexists _, _. split; [exact Hd|]. split; [exact He|].
      cbn. repeat split; assumption.
Qed.

Lemma CreateShortURL_effects_witness :
  exists ent t,
    data demo_custom_world = <[id ent := ent]> (data demo_booted) /\
    events demo_custom_world
    = events demo_booted ++ [mkAnalyticsEvent "url_created" "my-custom-url"
                               "https://example.com" [] t].
Proof.
  destruct (CreateShortURL_effects demo_booted demo_custom_req
              (mkCreateShortURLResponse "my-custom-url") demo_custom_world)
    as (ent & t & Hd & He & _).
  - vm_compute. reflexivity.
  - exists ent, t. split; [exact Hd|exact He].
Defined.

(** X17: on the generated path [Create] does not ask whether the
    identifier it got from the generator is already taken.  When an entity
    is stored under it, the call still succeeds and the new entity replaces
    the old one: the store keeps its size, every other id keeps its entity,
    and the old long URL is no longer reachable under that id. *)
Theorem CreateShortURL_generated_overwrites (w wg : World)
    (req : CreateShortURLRequest) (i : string) (old : ShortURL) :
  LongURL req <> EmptyString -> CustomURL req = EmptyString ->
  KGS.GenerateUniqueID w = (Ok i, wg) ->
  data w !! i = Some old ->
  exists resp w1 ent,
    App.CreateShortURL req w = (Ok resp, w1) /\
    data w1 !! i = Some ent /\ longURL ent = LongURL req /\
    isActive ent = true /\
    size (data w1) = size (data w) /\
    (forall k, k <> i -> data w1 !! k = data w !! k).
Proof.
  intros Hl Hc Hgen Hold.
  destruct (CreateShortURL_generated_effects w req i wg Hl Hc Hgen)
    as (w1 & Hrun & Hd & _). cbv zeta in *. cbn [id] in Hd.
  pose proof (GenerateUniqueID_keeps_data w) as Hkd.
  rewrite Hgen in Hkd. cbn in Hkd. rewrite Hkd in Hd.
  eexists _, w1, _. split; [exact Hrun|]. rewrite Hd.
  split; [apply lookup_insert_eq|]. split; [reflexivity|].
  split; [reflexivity|]. split.
  - now apply map_size_insert_Some.
  - intros k Hk. now apply lookup_insert_ne.
Qed.

Lemma CreateShortURL_generated_overwrites_witness :
  fst (App.CreateShortURL (demo_generated_req "https://b.example")
         (snd (App.CreateShortURL (demo_generated_req "https://a.example")
                 demo_booted)))
  = Ok (mkCreateShortURLResponse "http://test.com/3XbhVkDm") /\
  exists resp w1 ent,
    App.CreateShortURL (demo_generated_req "https://c.example")
      demo_two_created = (Ok resp, w1) /\
    data w1 !! "3XbhVkDm"%string = Some ent /\
    longURL ent = "https://c.example"%string.
Proof.
  split; [vm_compute; reflexivity|].
  destruct (CreateShortURL_generated_overwrites demo_two_created
              (snd (KGS.GenerateUniqueID demo_two_created))
              (demo_generated_req "https://c.example") "3XbhVkDm"
              (mkShortURL "3XbhVkDm" "https://b.example"
                 "http://test.com/3XbhVkDm" (demo_clock 5) None true []))
    as (resp & w1 & ent & Hrun & Hent & Hlong & _).
  - discriminate.
  - reflexivity.
  - vm_compute. reflexivity.
  - vm_compute. reflexivity.
  - exists resp, w1, ent. auto.
Defined.

(** X18: [Resolve] is a read.  It never changes the store or the generator
    and never panics.  It returns a long URL exactly when the input is not
    empty, an entity is stored under its final segment, the entity is
    active, and the clock is not past its expiry (at the very instant of
    expiry the URL still resolves); it then logs exactly one [url_accessed]
    event with the entity's URLs and the request's metadata, and in every
    other case logs nothing. *)
Theorem GetLongURL_effects (w : World) (req : GetLongURLRequest) :
  let r := App.GetLongURL req w in
  let key := App.extractIDFromShortURL (req_ShortURL req) in
  data (snd r) = data w /\ counter (snd r) = counter w /\
  buffer (snd r) = buffer w /\ draws (snd r) = draws w /\
  fst r <> Panic /\
  (forall l, fst r = Ok l <->
     req_ShortURL req <> EmptyString /\
     exists ent, data w !! key = Some ent /\ isActive ent = true /\
                 (forall e, expiry ent = Some e -> clock w (ticks w) <= e) /\
                 l = longURL ent) /\
  (forall l, fst r = Ok l ->
     exists ent t, data w !! key = Some ent /\
       events (snd r)
       = events w ++ [mkAnalyticsEvent "url_accessed" (shortURL ent)
                        (longURL ent) (req_UserMetadata req) t]) /\
  ((forall l, fst r <> Ok l) -> events (snd r) = events w).
Proof.
  cbv zeta. rewrite GetLongURL_run.
  destruct (String.eqb_spec (req_ShortURL req) "") as [Hempty|Hne];
    cbn [fst snd].
  { do 4 (split; [reflexivity|]). split; [discriminate|].
    split; [intros l; split|split].
    - discriminate.
    - intros (Hne & _). contradiction.
    - discriminate.
    - reflexivity. }
  destruct (data w !! App.extractIDFromShortURL (req_ShortURL req))
    as [ent|] eqn:Hfound; cbn [fst snd].
  2:{ do 4 (split; [reflexivity|]). split; [discriminate|].
      split; [intros l; split|split].
      - discriminate.
      - intros (_ & ent & Hent & _). discriminate.
      - discriminate.
      - reflexivity. }
  destruct (isActive ent) eqn:Hact; cbn [negb fst snd].
  2:{ do 4 (split; [reflexivity|]). split; [discriminate|].
      split; [intros l; split|split].
      - discriminate.
      - intros (_ & ent' & Hent & Hact' & _). congruence.
      - discriminate.
      - reflexivity. }
  destruct (expiry ent) as [e|] eqn:Hexp; cbv zeta.
  - destruct (Z.ltb_spec e (clock w (ticks w))); cbn [fst snd].
    + do 4 (split; [reflexivity|]). split; [discriminate|].
      split; [intros l; split|split].
      * discriminate.
      * intros (_ & ent' & Hent & _ & Hle & _).
        assert (ent' = ent) as -> by congruence.
        specialize (Hle e Hexp). lia.
      * discriminate.
      * reflexivity.
    + do 4 (split; [reflexivity|]). split; [discriminate|].
      split; [intros l; split|split].
      * intros [= <-]. split; [exact Hne|]. exists ent.
        repeat split; auto. intros e' He'.
        assert (e' = e) as -> by congruence. lia.
      * intros (_ & ent' & Hent & _ & _ & ->). congruence.
      * intros l _. exists ent. eexists. split; reflexivity.
      * intros Hno. now contradiction (Hno (longURL ent)).
  - cbn [fst snd]. do 4 (split; [reflexivity|]). split; [discriminate|].
    split; [intros l; split|split].
    + intros [= <-]. split; [exact Hne|]. exists ent.
      repeat split; auto. congruence.
    + intros (_ & ent' & Hent & _ & _ & ->). congruence.
    + intros l _. exists ent. eexists. split; reflexivity.
    + intros Hno. now contradiction (Hno (longURL ent)).
Qed.

(** X19: deactivating an entity stored under its own id succeeds.  The
    entity is stored again with [isActive] off and every other field as it
    was, no other entry changes, exactly one [url_deactivated] event is
    logged, and the generator is not touched. *)
Theorem DeactivateShortURL_spec (w : World) (k : string) (ent : ShortURL) :
  k <> EmptyString -> data w !! k = Some ent -> id ent = k ->
  exists w1 t,
    App.DeactivateShortURL k w = (Ok tt, w1) /\
    data w1 = <[k := Domain.Deactivate ent]> (data w) /\
    isActive (Domain.Deactivate ent) = false /\
    Domain.Deactivate ent
    = mkShortURL (id ent) (longURL ent) (shortURL ent) (createdAt ent)
                 (expiry ent) false (userMetadata ent) /\
    size (data w1) = size (data w) /\
    (forall k', k' <> k -> data w1 !! k' = data w !! k') /\
    events w1 = events w ++ [mkAnalyticsEvent "url_deactivated"
                               (shortURL ent) (longURL ent)
                               (userMetadata ent) t] /\
    counter w1 = counter w /\ buffer w1 = buffer w /\ draws w1 = draws w.
Proof.
  intros Hne Hent <-. rewrite DeactivateShortURL_run.
  rewrite (eqb_empty_false _ Hne), Hent.
  eexists _, _. split; [reflexivity|]. cbn.
  repeat split.
  - apply map_size_insert_Some. eauto.
  - intros k' Hk'. now apply lookup_insert_ne.
Qed.

Lemma DeactivateShortURL_spec_witness :
  exists w1,
    App.DeactivateShortURL "my-custom-url" demo_custom_world = (Ok tt, w1) /\
    data w1 = <["my-custom-url"%string := Domain.Deactivate demo_custom_entity]>
                (data demo_custom_world).
Proof.
  destruct (DeactivateShortURL_spec demo_custom_world "my-custom-url"
              demo_custom_entity ltac:(discriminate)
              demo_custom_world_lookup eq_refl)
    as (w1 & t & Hrun & Hd & _).
  exists w1. split; [exact Hrun|exact Hd].
Defined.

(** X20: deactivation sticks.  After an entity stored under its own id was
    deactivated, resolving any input whose final segment is that id returns
    the not-active-or-expired error, and deactivating it again succeeds and
    leaves the store as it is. *)
Theorem Deactivate_then_Resolve (w : World) (k : string) (ent : ShortURL)
    (req : GetLongURLRequest) :
  k <> EmptyString -> data w !! k = Some ent -> id ent = k ->
  req_ShortURL req <> EmptyString ->
  App.extractIDFromShortURL (req_ShortURL req) = k ->
  let w1 := snd (App.DeactivateShortURL k w) in
  fst (App.GetLongURL req w1) = Err App.ErrNotActiveOrExpired /\
  fst (App.DeactivateShortURL k w1) = Ok tt /\
  data (snd (App.DeactivateShortURL k w1)) = data w1.
Proof.
  intros Hne Hent Hid Hreq Hkey. cbv zeta.
  rewrite (DeactivateShortURL_run w), (eqb_empty_false k Hne), Hent, Hid.
  cbn [snd]. split.
  - rewrite GetLongURL_run, (eqb_empty_false _ Hreq), Hkey. cbn.
    now rewrite lookup_insert_eq.
  - rewrite DeactivateShortURL_run, (eqb_empty_false k Hne). cbn.
    rewrite lookup_insert_eq. cbn. rewrite Hid. split; [reflexivity|].
    apply insert_insert_eq.
Qed.

Lemma Deactivate_then_Resolve_witness :
  fst (App.GetLongURL
         (mkGetLongURLRequest "http://test.com/my-custom-url" [])
         (snd (App.DeactivateShortURL "my-custom-url" demo_custom_world)))
  = Err App.ErrNotActiveOrExpired.
Proof.
  exact (proj1 (Deactivate_then_Resolve demo_custom_world "my-custom-url"
                  demo_custom_entity
                  (mkGetLongURLRequest "http://test.com/my-custom-url" [])
                  ltac:(discriminate) demo_custom_world_lookup eq_refl
                  ltac:(discriminate) eq_refl)).
Defined.

(** ** Splitting, trimming and the shape of a short URL *)

Section SegmentFacts.

Lemma Split_parts_no_sep s sep :
  Forall (fun p => Strings.ContainsByte p sep = false) (Strings.Split s sep).
Proof.
  induction s as [|c s IH]; cbn.
  - repeat constructor.
  - destruct (Ascii.eqb c sep) eqn:Ec.
    + constructor; [reflexivity|exact IH].
    + destruct (Strings.Split s sep) as [|part parts]; cbn.
      * repeat constructor. cbn. now rewrite Ec.
      * inversion IH; subst. constructor; [|assumption].
        cbn. now rewrite Ec.
Qed.

Lemma Split_two s sep :
  Strings.ContainsByte s sep = true ->
  exists a b l, Strings.Split s sep = a :: b :: l.
Proof.
  induction s as [|c s IH]; cbn; [discriminate|].
  destruct (Ascii.eqb c sep); cbn.
  - intros _. pose proof (Split_nonempty s sep).
    destruct (Strings.Split s sep) as [|b l]; [congruence|eauto].
  - intros H. destruct (IH H) as (a & b & l & ->). eauto.
Qed.

(** The final segment, with what precedes it. *)
Lemma last_segment s sep :
  exists seg, last (Strings.Split s sep) = Some seg /\
    (Strings.ContainsByte s sep = false -> seg = s) /\
    (Strings.ContainsByte s sep = true ->
     exists p, s = (p ++ String sep seg)%string).
Proof.
  induction s as [|c s (seg & Hlast & Hno & Hyes)]; cbn.
  - exists EmptyString. repeat split; auto. discriminate.
  - destruct (Ascii.eqb_spec c sep) as [->|Hc]; cbn.
    + exists seg. split; [|split; [discriminate|]].
      * pose proof (Split_nonempty s sep).
        destruct (Strings.Split s sep) as [|b l]; [congruence|].
        now rewrite last_cons_cons.
      * intros _. destruct (Strings.ContainsByte s sep) eqn:E.
        -- destruct (Hyes eq_refl) as [p ->].
           exists (String sep p). reflexivity.
        -- rewrite (Hno eq_refl). exists EmptyString. reflexivity.
    + destruct (Strings.ContainsByte s sep) eqn:E.
      * destruct (Split_two s sep E) as (a & b & l & Hs).
        rewrite Hs in *. exists seg. rewrite last_cons_cons.
        rewrite last_cons_cons in Hlast.
        split; [exact Hlast|]. split; [discriminate|].
        intros _. destruct (Hyes eq_refl) as [p ->].
        exists (String c p). reflexivity.
      * rewrite (Split_no_sep s sep E). exists (String c s).
        repeat split; auto. discriminate.
Qed.

Lemma substring_prefix s t :
  String.substring 0 (String.length s) (s ++ t) = s.
Proof.
  induction s as [|c s IH]; cbn.
  - destruct t; reflexivity.
  - rewrite append_cons. cbn. now rewrite IH.
Qed.

Lemma substring_at_length s c :
  String.substring (String.length s) 1 (s ++ String c EmptyString)
  = String c EmptyString.
Proof.
  induction s as [|a s IH]; [reflexivity|].
  rewrite append_cons. cbn [String.length String.substring]. exact IH.
Qed.

Lemma TrimSuffix_appended s c :
  Strings.TrimSuffix (s ++ String c EmptyString) (String c EmptyString) = s.
Proof.
  unfold Strings.TrimSuffix, Strings.HasSuffix. cbv zeta.
  rewrite append_length. cbn [String.length].
  replace (String.length s + 1 - 1)%nat with (String.length s) by lia.
  rewrite substring_at_length, String.eqb_refl.
  destruct (1 <=? String.length s + 1)%nat eqn:E.
  - cbn. apply substring_prefix.
  - apply Nat.leb_gt in E. lia.
Qed.

Lemma extractIDFromShortURL_no_slash url :
  Strings.ContainsByte (App.extractIDFromShortURL url) "/" = false.
Proof.
  unfold App.extractIDFromShortURL.
  destruct (last_segment url "/") as (seg & Hlast & _).
  rewrite Hlast. apply last_Some in Hlast as [l Hl].
  pose proof (Split_parts_no_sep url "/") as Hall. rewrite Hl in Hall.
  apply Forall_app in Hall as [_ Hall]. now inversion Hall.
Qed.

End SegmentFacts.

(** X21: the identifier [extractIDFromShortURL] returns never contains a
    '/'.  It is the whole input when the input has no '/', and otherwise
    what follows the last '/' of the input (the empty string when the input
    ends in '/'). *)
Theorem extractIDFromShortURL_segment (url : string) :
  Strings.ContainsByte (App.extractIDFromShortURL url) "/" = false /\
  (Strings.ContainsByte url "/" = false ->
   App.extractIDFromShortURL url = url) /\
  (Strings.ContainsByte url "/" = true ->
   exists p, url = (p ++ "/" ++ App.extractIDFromShortURL url)%string) /\
  (forall p, App.extractIDFromShortURL (p ++ "/") = EmptyString).
Proof.
  split; [apply extractIDFromShortURL_no_slash|].
  unfold App.extractIDFromShortURL.
  destruct (last_segment url "/") as (seg & Hlast & Hno & Hyes).
  rewrite Hlast. split; [exact Hno|split; [exact Hyes|]].
  - intros p. change (p ++ "/")%string with (p ++ String "/" EmptyString)%string.
    rewrite Split_append. cbn. now rewrite last_snoc.
Qed.

(** X22: a custom identifier that contains '/' is accepted by [Create] but
    cannot be resolved through the short URL that [Create] returns for it:
    [Resolve] looks under the part after the last '/', and unless some
    entity is stored under that part it returns the not-found error. *)
Theorem custom_id_with_slash (w w1 : World) (req : CreateShortURLRequest)
    (resp : CreateShortURLResponse) (md : Metadata) :
  Strings.ContainsByte (CustomURL req) "/" = true ->
  App.CreateShortURL req w = (Ok resp, w1) ->
  data w !! App.extractIDFromShortURL (CustomURL req) = None ->
  CustomURL req <> EmptyString /\
  resp_ShortURL resp = CustomURL req /\
  is_Some (data w1 !! CustomURL req) /\
  App.GetLongURL (mkGetLongURLRequest (resp_ShortURL resp) md) w1
  = (Err App.ErrNotFound, w1).
Proof.
  intros Hslash Hrun Hfree.
  assert (Hc : CustomURL req <> EmptyString).
  { intros E. rewrite E in Hslash. discriminate. }
  destruct (String.eqb_spec (LongURL req) "") as [Hl|Hl].
  { rewrite CreateShortURL_empty in Hrun by exact Hl. discriminate. }
  destruct (data w !! CustomURL req) as [old|] eqn:E.
  { rewrite CreateShortURL_custom_taken in Hrun by eauto. discriminate. }
  destruct (CreateShortURL_custom_run w req Hc Hl E) as (w2 & Hrun2 & Hd & _).
  rewrite Hrun2 in Hrun. injection Hrun as <- <-. cbn [resp_ShortURL id] in *.
  split; [exact Hc|]. split; [reflexivity|]. split.
  - rewrite Hd, lookup_insert_eq. eauto.
  - apply GetLongURL_absent; [exact Hc|]. cbn [req_ShortURL].
    rewrite Hd, lookup_insert_ne; [exact Hfree|].
    intros Heq.
    pose proof (extractIDFromShortURL_no_slash (CustomURL req)) as Hn.
    rewrite <- Heq in Hn. congruence.
Qed.

Lemma custom_id_with_slash_witness :
  exists w1,
    App.CreateShortURL
      (mkCreateShortURLRequest "https://example.com" "promo/summer" None [])
      demo_booted
    = (Ok (mkCreateShortURLResponse "promo/summer"), w1) /\
    App.GetLongURL (mkGetLongURLRequest "promo/summer" []) w1
    = (Err App.ErrNotFound, w1).
Proof.
  eexists. split; [vm_compute; reflexivity|].
  refine (proj2 (proj2 (proj2
            (custom_id_with_slash demo_booted _
               (mkCreateShortURLRequest "https://example.com" "promo/summer"
                  None [])
               (mkCreateShortURLResponse "promo/summer") [] eq_refl _ _)))).
  - vm_compute. reflexivity.
  - vm_compute. reflexivity.
Defined.

(** X23: [buildShortURL] joins the base URL and the identifier with exactly
    one '/' between them when the base URL ends in at most one '/': a base
    URL written with a trailing '/' and the same base URL written without
    give the same short URL.  Only one trailing '/' is dropped.  And for an
    identifier without '/', [extractIDFromShortURL] of the short URL gives
    the identifier back. *)
Theorem buildShortURL_spec (w : World) (i b : string) :
  (baseURL w = (b ++ "/")%string ->
   App.buildShortURL i w = (Ok (b ++ "/" ++ i)%string, w)) /\
  (Strings.HasSuffix (baseURL w) "/" = false ->
   App.buildShortURL i w = (Ok (baseURL w ++ "/" ++ i)%string, w)) /\
  (Strings.ContainsByte i "/" = false ->
   exists s, App.buildShortURL i w = (Ok s, w)
             /\ App.extractIDFromShortURL s = i).
Proof.
  unfold App.buildShortURL, bind, gets, ret. split; [|split].
  - intros ->. change (b ++ "/")%string with (b ++ String "/" EmptyString)%string.
    now rewrite TrimSuffix_appended.
  - intros H. unfold Strings.TrimSuffix. now rewrite H.
  - intros Hi. eexists. split; [reflexivity|].
    now apply extractIDFromShortURL_full.
Qed.

(** X24: the custom path end to end.  A [Create] with a free custom
    identifier that has no '/', and a non-empty long URL, returns the
    identifier itself as the short URL; resolving that short URL right
    afterwards returns the long URL, unless the request carried an expiry
    that the clock has passed by then. *)
Theorem CreateCustom_then_GetLongURL (w : World)
    (req : CreateShortURLRequest) (md : Metadata) :
  CustomURL req <> EmptyString -> LongURL req <> EmptyString ->
  Strings.ContainsByte (CustomURL req) "/" = false ->
  data w !! CustomURL req = None ->
  exists w1,
    App.CreateShortURL req w
    = (Ok (mkCreateShortURLResponse (CustomURL req)), w1) /\
    ((forall e, Expiry req = Some e -> clock w1 (ticks w1) <= e) ->
     fst (App.GetLongURL (mkGetLongURLRequest (CustomURL req) md) w1)
     = Ok (LongURL req)).
Proof.
  intros Hc Hl Hslash Hfree.
  destruct (CreateShortURL_custom_run w req Hc Hl Hfree)
    as (w1 & Hrun & Hd & _). cbn [id] in Hd.
  exists w1. split; [exact Hrun|]. intros Hexp.
  rewrite GetLongURL_run. cbn [req_ShortURL req_UserMetadata].
  rewrite (eqb_empty_false _ Hc), (extractIDFromShortURL_bare _ Hslash).
  rewrite Hd, lookup_insert_eq. cbn.
  destruct (Expiry req) as [e|]; [|reflexivity].
  specialize (Hexp e eq_refl).
  destruct (Z.ltb_spec e (clock w1 (ticks w1))); [lia|reflexivity].
Qed.

Lemma CreateCustom_then_GetLongURL_witness :
  fst (App.GetLongURL (mkGetLongURLRequest "my-custom-url" [])
         demo_custom_world)
  = Ok "https://example.com"%string.
Proof.
  destruct (CreateCustom_then_GetLongURL demo_booted demo_custom_req []
              ltac:(discriminate) ltac:(discriminate) eq_refl eq_refl)
    as (w1 & Hrun & Hres).
  assert (Hw : w1 = demo_custom_world).
  { unfold demo_custom_world. now rewrite Hrun. }
  rewrite <- Hw. apply Hres. discriminate.
Defined.

(** * Properties of the HTTP layer *)

Section HandlerFacts.

Variable enum : gmap string ShortURL -> list string.

(** The errors [GetLongURL] can return, and that it never panics. *)
Lemma GetLongURL_outcomes w req :
  match App.GetLongURL req w with
  | (Ok _, _) => True
  | (Err err, _) =>
      err = App.ErrShortURLRequired /\ req_ShortURL req = EmptyString \/
      err = App.ErrNotFound \/ err = App.ErrNotActiveOrExpired
  | (Panic, _) => False
  end.
Proof.
  rewrite GetLongURL_run.
  destruct (String.eqb_spec (req_ShortURL req) ""); [auto|].
  destruct (data w !! _) as [ent|]; [|auto].
  destruct (isActive ent); cbn [negb]; [|auto].
  destruct (expiry ent) as [e|]; cbv zeta; [|exact I].
  destruct (e <? clock w (ticks w)); [auto|exact I].
Qed.

(** [GetLongURL] reads the short URL only through its identifier. *)
Lemma GetLongURL_by_identifier w url url' md :
  url <> EmptyString -> url' <> EmptyString ->
  App.extractIDFromShortURL url = App.extractIDFromShortURL url' ->
  App.GetLongURL (mkGetLongURLRequest url md) w
  = App.GetLongURL (mkGetLongURLRequest url' md) w.
Proof.
  intros Hu Hu' Hid. rewrite !GetLongURL_run.
  cbn [req_ShortURL req_UserMetadata].
  now rewrite (eqb_empty_false _ Hu), (eqb_empty_false _ Hu'), Hid.
Qed.

Lemma prefix_slash_segment p k :
  String.prefix (String "/" p) (String "/" k) = true ->
  Strings.ContainsByte p "/" = true ->
  Strings.ContainsByte k "/" = true.
Proof.
  cbn [String.prefix]. destruct (ascii_dec "/" "/") as [_|n]; [|congruence].
  revert k. induction p as [|c p IH]; intros k; [discriminate|].
  destruct k as [|d k]; [discriminate|]. cbn [String.prefix].
  destruct (ascii_dec c d) as [->|n]; [|discriminate].
  cbn [Strings.ContainsByte]. destruct (Ascii.eqb d "/"); [reflexivity|].
  cbn [orb]. apply IH.
Qed.

(** A path of one segment is neither under "/v1/" nor under "/admin/". *)
Lemma one_segment_no_prefix k :
  Strings.ContainsByte k "/" = false ->
  Http.HasPrefix ("/" ++ k) "/v1/" || Http.HasPrefix ("/" ++ k) "/admin/"
  = false.
Proof.
  intros Hk. unfold Http.HasPrefix.
  change ("/" ++ k)%string with (String "/" k).
  destruct (String.prefix "/v1/" (String "/" k)) eqn:E1.
  { apply prefix_slash_segment in E1; [congruence|reflexivity]. }
  destruct (String.prefix "/admin/" (String "/" k)) eqn:E2.
  { apply prefix_slash_segment in E2; [congruence|reflexivity]. }
  reflexivity.
Qed.

End HandlerFacts.

Section HandlerRuns.

Variable enum : gmap string ShortURL -> list string.

(** A call of the service whose error is kept as a value. *)
Lemma attempt_bind {A B} (m : M A) (k : A + error -> M B) w :
  (r <- Http.attempt m ;; k r) w
  = match m w with
    | (Ok a, w1) => k (inl a) w1
    | (Err e, w1) => k (inr e) w1
    | (Panic, w1) => (Panic, w1)
    end.
Proof.
  unfold bind, Http.attempt. destruct (m w) as [[a|e|] w1]; reflexivity.
Qed.

Lemma string_append_assoc (a b c : string) :
  ((a ++ b) ++ c)%string = (a ++ b ++ c)%string.
Proof.
  induction a as [|x a IH]; [reflexivity|]. now rewrite !append_cons, IH.
Qed.

(** The redirect handler on a path of one segment: the service is asked for
    that segment, whatever the host and the scheme. *)
Lemma RedirectShortURL_run (r : Http.Request) encodeErr w k :
  Http.Method r = "GET"%string -> Http.URL_Path r = ("/" ++ k)%string ->
  k <> EmptyString -> Strings.ContainsByte k "/" = false ->
  Http.RedirectShortURL (service := Http.AppService enum) r encodeErr w
  = match App.GetLongURL
            (mkGetLongURLRequest k
               [("ip", Http.RemoteAddr r); ("user_agent", Http.UserAgent r);
                ("referer", Http.Referer r)]%string) w with
    | (Ok long, w1) => (Ok [Http.Redirect long 302], w1)
    | (Err err, w1) => (Ok (Http.resolveError err encodeErr), w1)
    | (Panic, w1) => (Panic, w1)
    end.
Proof.
  intros Hm Hp Hk Hslash. unfold Http.RedirectShortURL.
  rewrite Hm, Hp. cbn [String.eqb Ascii.eqb Bool.eqb negb]. cbv zeta.
  cbn [Http.svc_GetLongURL Http.AppService]. rewrite attempt_bind.
  match goal with
  | |- context [App.GetLongURL (mkGetLongURLRequest ?u ?md) w] =>
      rewrite (GetLongURL_by_identifier w u k md)
  end.
  - destruct (App.GetLongURL _ w) as [[long|err|] w1]; reflexivity.
  - destruct (negb (Http.URL_Scheme r =? "")%string);
      rewrite <- !(string_append_assoc _ _ ("/" ++ k));
      apply append_slash_nonempty.
  - exact Hk.
  - rewrite (extractIDFromShortURL_bare k Hslash).
    destruct (negb (Http.URL_Scheme r =? "")%string);
      rewrite <- !(string_append_assoc _ _ ("/" ++ k));
      now apply extractIDFromShortURL_full.
Qed.

End HandlerRuns.

(** X25: the reply of the create handler over the service.  Any method but
    POST gets 405 and a body that did not decode gets 400 "Invalid JSON",
    both without a call of the service.  Otherwise the service runs once:
    its response is sent with 200; an empty long URL is answered with 400
    and a taken custom identifier with 409, the state unchanged; no other
    error reply exists, and a panic of the service passes through the
    handler. *)
Theorem Http_CreateShortURL_reply
    (enum : gmap string ShortURL -> list string) (method : string)
    (decoded : option CreateShortURLRequest) (encodeErr : option string)
    (w : World) :
  let reply :=
    Http.CreateShortURL (service := Http.AppService enum)
      method decoded encodeErr w in
  (method <> "POST"%string ->
   reply = (Ok [Http.HttpError "Method not allowed" 405], w)) /\
  (method = "POST"%string -> decoded = None ->
   reply = (Ok (Http.encodeError 400 "Invalid JSON" encodeErr), w)) /\
  (forall req, method = "POST"%string -> decoded = Some req ->
     match App.CreateShortURL req w with
     | (Ok resp, w1) =>
         reply
         = (Ok ([Http.HeaderSet "Content-Type" "application/json";
                 Http.WriteHeader 200; Http.Encode (Http.CreateBody resp)]
                ++ match encodeErr with
                   | Some msg => [Http.HttpError msg 500]
                   | None => []
                   end), w1)
     | (Err _, w1) =>
         w1 = w /\
         (LongURL req = EmptyString /\
          reply = (Ok (Http.encodeError 400 "longUrl is required" encodeErr),
                   w) \/
          LongURL req <> EmptyString /\ is_Some (data w !! CustomURL req) /\
          reply
          = (Ok (Http.encodeError 409 "custom URL already exists" encodeErr),
             w))
     | (Panic, w1) => reply = (Panic, w1)
     end).
Proof.
  cbv zeta. unfold Http.CreateShortURL. split; [|split].
  - intros Hm. now rewrite (proj2 (String.eqb_neq _ _) Hm).
  - intros -> ->. reflexivity.
  - intros req -> ->. cbn [String.eqb Ascii.eqb Bool.eqb negb].
    cbn [Http.svc_CreateShortURL Http.AppService]. rewrite attempt_bind.
    destruct (CreateShortURL_cases w req)
      as [[Hl Hrun]|[(Hl & _ & Htaken & Hrun)
         |[(_ & _ & ent & t & w1 & Hrun & _)
          |[(_ & _ & i & wg & ent & t & w1 & _ & Hrun & _)
           |(_ & _ & wg & _ & Hrun)]]]]; rewrite Hrun.
    + split; [reflexivity|]. left. split; [exact Hl|reflexivity].
    + split; [reflexivity|].
      right. split; [exact Hl|]. split; [exact Htaken|reflexivity].
    + reflexivity.
    + reflexivity.
    + reflexivity.
Qed.

(** X26: the reply of the resolving handler over the service.  Any method
    but GET gets 405 and a body that did not decode gets 400.  Otherwise a
    resolved URL is sent as the Location of a 302; the not-found error is
    answered with 404, and an empty short URL, an inactive entity and an
    expired one with 400; the handler leaves the state as the service left
    it, and never panics. *)
Theorem Http_GetLongURL_reply
    (enum : gmap string ShortURL -> list string) (method : string)
    (decoded : option GetLongURLRequest) (encodeErr : option string)
    (w : World) :
  let reply :=
    Http.GetLongURL (service := Http.AppService enum)
      method decoded encodeErr w in
  (method <> "GET"%string ->
   reply = (Ok [Http.HttpError "Method not allowed" 405], w)) /\
  (method = "GET"%string -> decoded = None ->
   reply = (Ok (Http.encodeError 400 "Invalid JSON" encodeErr), w)) /\
  (forall req, method = "GET"%string -> decoded = Some req ->
     match App.GetLongURL req w with
     | (Ok long, w1) =>
         reply = (Ok [Http.HeaderSet "Location" long; Http.WriteHeader 302],
                  w1)
     | (Err err, w1) =>
         err = App.ErrNotFound /\
         reply
         = (Ok (Http.encodeError 404 "short URL not found" encodeErr), w1) \/
         err = App.ErrShortURLRequired /\
         reply
         = (Ok (Http.encodeError 400 "shortUrl is required" encodeErr), w1) \/
         err = App.ErrNotActiveOrExpired /\
         reply
         = (Ok (Http.encodeError 400 "short URL is not active or expired"
                  encodeErr), w1)
     | (Panic, _) => False
     end) /\
  fst reply <> Panic.
Proof.
  cbv zeta. unfold Http.GetLongURL. split; [|split; [|split]].
  - intros Hm. now rewrite (proj2 (String.eqb_neq _ _) Hm).
  - intros -> ->. reflexivity.
  - intros req -> ->. cbn [String.eqb Ascii.eqb Bool.eqb negb].
    cbn [Http.svc_GetLongURL Http.AppService]. rewrite attempt_bind.
    pose proof (GetLongURL_outcomes w req) as Hout.
    destruct (App.GetLongURL req w) as [[long|err|] w1].
    + reflexivity.
    + destruct Hout as [[-> _] | [-> | ->]]; auto.
    + contradiction.
  - destruct (negb (method =? "GET")%string); [discriminate|].
    destruct decoded as [req|]; [|discriminate].
    cbn [Http.svc_GetLongURL Http.AppService]. rewrite attempt_bind.
    pose proof (GetLongURL_outcomes w req) as Hout.
    destruct (App.GetLongURL req w) as [[long|err|] w1].
    + discriminate.
    + discriminate.
    + contradiction.
Qed.

(** X27: the catch-all route.  The path "/" and every path under "/v1/" or
    "/admin/" are answered with a plain 404 whatever the method, without a
    call of the service.  A GET of a path "/k" of one non-empty segment
    answers as the service resolves the bare identifier [k]: the host and
    the scheme of the request play no part, and the event carries the
    remote address, the user agent and the referer; any other method on
    such a path gets 405. *)
Theorem Http_catchAll_reply
    (enum : gmap string ShortURL -> list string) (r : Http.Request)
    (encodeErr : option string) (w : World) :
  let reply :=
    Http.catchAll (service := Http.AppService enum) r encodeErr w in
  (Http.URL_Path r = "/"%string ->
   reply = (Ok [Http.WriteHeader 404; Http.Write "Short URL not found"], w)) /\
  (Http.HasPrefix (Http.URL_Path r) "/v1/" = true \/
   Http.HasPrefix (Http.URL_Path r) "/admin/" = true ->
   reply = (Ok [Http.WriteHeader 404; Http.Write "Endpoint not found"], w)) /\
  (forall k, Http.URL_Path r = ("/" ++ k)%string -> k <> EmptyString ->
     Strings.ContainsByte k "/" = false ->
     (Http.Method r <> "GET"%string ->
      reply = (Ok [Http.HttpError "Method not allowed" 405], w)) /\
     (Http.Method r = "GET"%string ->
      match App.GetLongURL
              (mkGetLongURLRequest k
                 [("ip", Http.RemoteAddr r);
                  ("user_agent", Http.UserAgent r);
                  ("referer", Http.Referer r)]%string) w with
      | (Ok long, w1) => reply = (Ok [Http.Redirect long 302], w1)
      | (Err err, w1) =>
          err = App.ErrNotFound /\
          reply
          = (Ok (Http.encodeError 404 "short URL not found" encodeErr), w1) \/
          err = App.ErrNotActiveOrExpired /\
          reply
          = (Ok (Http.encodeError 400 "short URL is not active or expired"
                   encodeErr), w1)
      | (Panic, _) => False
      end)).
Proof.
  cbv zeta. unfold Http.catchAll. split; [|split].
  - intros ->. reflexivity.
  - intros Hpre. destruct (String.eqb_spec (Http.URL_Path r) "/") as [E|_].
    + rewrite E in Hpre. destruct Hpre; discriminate.
    + destruct Hpre as [-> | ->]; [reflexivity|]. now rewrite orb_true_r.
  - intros k Hp Hk Hslash. rewrite Hp.
    change (("/" ++ k)%string =? "/")%string with (k =? "")%string.
    rewrite (eqb_empty_false _ Hk), (one_segment_no_prefix k Hslash).
    split.
    + intros Hm. unfold Http.RedirectShortURL.
      now rewrite (proj2 (String.eqb_neq _ _) Hm).
    + intros Hm. rewrite (RedirectShortURL_run enum r encodeErr w k Hm Hp Hk Hslash).
      pose proof (GetLongURL_outcomes w
        (mkGetLongURLRequest k
           [("ip", Http.RemoteAddr r); ("user_agent", Http.UserAgent r);
            ("referer", Http.Referer r)]%string)) as Hout.
      destruct (App.GetLongURL _ w) as [[long|err|] w1].
      * reflexivity.
      * destruct Hout as [[_ E] | [-> | ->]]; [now cbn in E|auto..].
      * contradiction.
Qed.

(** X28: the reply of the deactivation handler over the service.  Any
    method but DELETE gets 405 and an empty or missing [id] parameter gets
    400, both without a call of the service.  An identifier that is not in
    the store gets 404 with the not-found message and the state unchanged;
    one that is in the store gets 204, its entity is stored back inactive
    and one [url_deactivated] event is logged.  The service's own
    id-required error never reaches the client. *)
Theorem Http_DeactivateShortURL_reply
    (enum : gmap string ShortURL -> list string) (method k : string)
    (w : World) :
  let reply :=
    Http.DeactivateShortURL (service := Http.AppService enum) method k w in
  (method <> "DELETE"%string ->
   reply = (Ok [Http.HttpError "Method not allowed" 405], w)) /\
  (method = "DELETE"%string -> k = EmptyString ->
   reply = (Ok [Http.HttpError "ID parameter is required" 400], w)) /\
  (method = "DELETE"%string -> k <> EmptyString ->
   match data w !! k with
   | None => reply = (Ok [Http.HttpError "short URL not found" 404], w)
   | Some ent =>
       exists w1,
         reply = (Ok [Http.WriteHeader 204], w1) /\
         data w1 = <[id ent := Domain.Deactivate ent]> (data w) /\
         events w1
         = events w ++ [mkAnalyticsEvent "url_deactivated" (shortURL ent)
                          (longURL ent) (userMetadata ent)
                          (clock w (ticks w))]
   end).
Proof.
  cbv zeta. unfold Http.DeactivateShortURL. split; [|split].
  - intros Hm. now rewrite (proj2 (String.eqb_neq _ _) Hm).
  - intros -> ->. reflexivity.
  - intros -> Hk. cbn [String.eqb Ascii.eqb Bool.eqb negb].
    rewrite (eqb_empty_false _ Hk).
    cbn [Http.svc_DeactivateShortURL Http.AppService].
    rewrite attempt_bind, DeactivateShortURL_run, (eqb_empty_false _ Hk).
    destruct (data w !! k) as [ent|]; [|reflexivity].
    eexists. split; [reflexivity|]. split; reflexivity.
Qed.

(** X29: a custom short URL through the HTTP layer, end to end.  A POST
    with a free custom identifier of one segment, a long URL and no expiry
    is answered with 200 and the identifier itself as the short URL; a GET
    of "/identifier" on the catch-all route is then redirected with 302 to
    the long URL; a DELETE of the identifier is answered with 204; and the
    same GET is from then on answered with 400 (not 404), the entity still
    in the store. *)
Theorem create_redirect_deactivate
    (enum : gmap string ShortURL -> list string) (w : World)
    (req : CreateShortURLRequest) (r : Http.Request)
    (encodeErr : option string) :
  LongURL req <> EmptyString -> CustomURL req <> EmptyString ->
  Strings.ContainsByte (CustomURL req) "/" = false ->
  data w !! CustomURL req = None -> Expiry req = None ->
  Http.Method r = "GET"%string ->
  Http.URL_Path r = ("/" ++ CustomURL req)%string ->
  exists w1 w2 w3,
    Http.CreateShortURL (service := Http.AppService enum)
      "POST" (Some req) None w
    = (Ok [Http.HeaderSet "Content-Type" "application/json";
           Http.WriteHeader 200;
           Http.Encode
             (Http.CreateBody (mkCreateShortURLResponse (CustomURL req)))],
       w1) /\
    Http.catchAll (service := Http.AppService enum) r encodeErr w1
    = (Ok [Http.Redirect (LongURL req) 302], w2) /\
    Http.DeactivateShortURL (service := Http.AppService enum)
      "DELETE" (CustomURL req) w2
    = (Ok [Http.WriteHeader 204], w3) /\
    Http.catchAll (service := Http.AppService enum) r encodeErr w3
    = (Ok (Http.encodeError 400 "short URL is not active or expired"
             encodeErr), w3) /\
    is_Some (data w3 !! CustomURL req).
Proof.
  intros Hl Hc Hslash Hfree Hexp Hm Hp.
  destruct (CreateShortURL_custom_run w req Hc Hl Hfree)
    as (w1 & Hrun & Hd1 & _). cbn [id] in Hd1.
  assert (Hroute : forall w',
    Http.catchAll (service := Http.AppService enum) r encodeErr w'
    = match App.GetLongURL
              (mkGetLongURLRequest (CustomURL req)
                 [("ip", Http.RemoteAddr r); ("user_agent", Http.UserAgent r);
                  ("referer", Http.Referer r)]%string) w' with
      | (Ok long, w'') => (Ok [Http.Redirect long 302], w'')
      | (Err err, w'') => (Ok (Http.resolveError err encodeErr), w'')
      | (Panic, w'') => (Panic, w'')
      end).
  { intros w'. unfold Http.catchAll. rewrite Hp.
    change (("/" ++ CustomURL req)%string =? "/")%string
      with (CustomURL req =? "")%string.
    rewrite (eqb_empty_false _ Hc), (one_segment_no_prefix _ Hslash).
    now apply RedirectShortURL_run. }
  assert (Hget : forall w', App.GetLongURL
              (mkGetLongURLRequest (CustomURL req)
                 [("ip", Http.RemoteAddr r); ("user_agent", Http.UserAgent r);
                  ("referer", Http.Referer r)]%string) w'
            = _) by (intros w'; apply GetLongURL_run).
  cbn [req_ShortURL req_UserMetadata] in Hget.
  setoid_rewrite (eqb_empty_false _ Hc) in Hget.
  setoid_rewrite (extractIDFromShortURL_bare _ Hslash) in Hget.
  eexists w1, _, _. split; [|split; [|split; [|split]]].
  - unfold Http.CreateShortURL. cbn [String.eqb Ascii.eqb Bool.eqb negb].
    cbn [Http.svc_CreateShortURL Http.AppService].
    rewrite attempt_bind, Hrun. reflexivity.
  - rewrite Hroute, Hget, Hd1, lookup_insert_eq. cbn. rewrite Hexp.
    reflexivity.
  - unfold Http.DeactivateShortURL.
    cbn [String.eqb Ascii.eqb Bool.eqb negb].
    rewrite (eqb_empty_false _ Hc).
    cbn [Http.svc_DeactivateShortURL Http.AppService].
    rewrite attempt_bind, DeactivateShortURL_run, (eqb_empty_false _ Hc).
    cbn [data set_events set_ticks]. rewrite Hd1, lookup_insert_eq.
    reflexivity.
  - rewrite Hroute, Hget. cbn. rewrite lookup_insert_eq. reflexivity.
  - cbn. rewrite lookup_insert_eq. eauto.
Qed.

Lemma create_redirect_deactivate_witness :
  exists w1 w2 w3,
    Http.CreateShortURL (service := Http.AppService (fun _ => []))
      "POST" (Some demo_custom_req) None demo_booted
    = (Ok [Http.HeaderSet "Content-Type" "application/json";
           Http.WriteHeader 200;
           Http.Encode
             (Http.CreateBody (mkCreateShortURLResponse "my-custom-url"))],
       w1) /\
    Http.catchAll (service := Http.AppService (fun _ => []))
      demo_redirect_request None w1
    = (Ok [Http.Redirect "https://example.com" 302], w2) /\
    Http.DeactivateShortURL (service := Http.AppService (fun _ => []))
      "DELETE" "my-custom-url" w2
    = (Ok [Http.WriteHeader 204], w3) /\
    Http.catchAll (service := Http.AppService (fun _ => []))
      demo_redirect_request None w3
    = (Ok (Http.encodeError 400 "short URL is not active or expired" None),
       w3) /\
    is_Some (data w3 !! "my-custom-url"%string).
Proof.
  apply (create_redirect_deactivate (fun _ => []) demo_booted demo_custom_req
           demo_redirect_request None);
    [discriminate|discriminate|reflexivity|reflexivity|reflexivity
    |reflexivity|reflexivity].
Defined.

(** X30: the reply of the listing handler over the service.  Any method but
    GET gets 405.  A GET never takes the handler's 500 branch for a service
    failure and never changes the state: it sets the content type and hands
    the encoder one response per entity of the store, each stored entity
    once, inactive and expired ones included, and the empty list for the
    empty store; only a failure of the encoder adds a 500 with the
    encoder's message. *)
Theorem Http_GetAllShortURLs_reply
    (enum : gmap string ShortURL -> list string) (method : string)
    (encodeErr : option string) (w : World) :
  let reply :=
    Http.GetAllShortURLs (service := Http.AppService enum)
      method encodeErr w in
  (method <> "GET"%string ->
   reply = (Ok [Http.HttpError "Method not allowed" 405], w)) /\
  (method = "GET"%string ->
   exists ents,
     reply
     = (Ok ([Http.HeaderSet "Content-Type" "application/json";
             Http.Encode (Http.ListBody (map toResponse ents))]
            ++ match encodeErr with
               | Some msg => [Http.HttpError msg 500]
               | None => []
               end), w) /\
     (enumerates (enum (data w)) w ->
      List.length ents = size (data w) /\
      (forall ent, ent ∈ ents <-> exists k, data w !! k = Some ent) /\
      (data w = ∅ -> ents = []))).
Proof.
  cbv zeta. unfold Http.GetAllShortURLs. split.
  - intros Hm. now rewrite (proj2 (String.eqb_neq _ _) Hm).
  - intros ->. cbn [String.eqb Ascii.eqb Bool.eqb negb].
    cbn [Http.svc_GetAllShortURLs Http.AppService]. rewrite attempt_bind.
    exists (omap (fun k => data w !! k) (enum (data w))).
    split; [reflexivity|]. intros Henum. pose proof Henum as [Hnd Hin].
    split; [|split].
    + rewrite omap_lookup_length by (intros k Hk; now apply Hin).
      rewrite (enumerates_Permutation _ w Henum).
      rewrite length_fmap. apply length_map_to_list.
    + intros ent. rewrite list_elem_of_omap. split.
      * intros (k & _ & Hk). eauto.
      * intros (k & Hk). exists k. split; [apply Hin; eauto|exact Hk].
    + intros Hempty. destruct (enum (data w)) as [|k order]; [reflexivity|].
      destruct (proj1 (Hin k) ltac:(left)) as [ent Hent].
      rewrite Hempty, lookup_empty in Hent. discriminate.
Qed.
